(** * ThreePortfolio: the per-frame motion model of the roller-coaster scene

    A shallow embedding of [src/scenes/ThreePortfolio.tsx].  The component
    keeps a progress parameter on a closed track curve, advances it once per
    animation frame, and places and orients a ball on the curve.

    JavaScript numbers are IEEE 754 binary64 values; they are modelled by
    Rocq's primitive [float], whose operations are the binary64 ones.  The
    operators of the language that are not primitive in Rocq (the remainder
    [%], [Math.max], [Math.min], [Math.floor]) are defined on [spec_float],
    the library's specification of binary64, and transported to [float]. *)

From Stdlib Require Import ZArith List Bool Lia Floats.
Import ListNotations.

Set Warnings "-inexact-float".

(** ** JavaScript numbers *)

Module JS.

Open Scope float_scope.

(** [a > b] and [a < b] on numbers: false as soon as one side is NaN. *)
Definition gt (a b : float) : bool := b <? a.
Definition lt (a b : float) : bool := a <? b.

(** The exact integer scaling of two finite mantissas to their common
    exponent [Z.min ex ey]. *)
Definition align (mx : positive) (ex : Z) (my : positive) (ey : Z) : Z * Z * Z :=
  let ez := Z.min ex ey in
  (Zpos (fst (shl_align mx ex ez)), Zpos (fst (shl_align my ey ez)), ez).

(** [Number::remainder(n, d)] of ECMAScript (the [%] operator): the
    remainder of the truncating division, computed exactly, with the sign
    of the dividend. *)
Definition SFrem (x y : spec_float) : spec_float :=
  match x, y with
  | S754_nan, _ | _, S754_nan => S754_nan
  | S754_infinity _, _ => S754_nan
  | _, S754_zero _ => S754_nan
  | _, S754_infinity _ => x
  | S754_zero _, _ => x
  | S754_finite sx mx ex, S754_finite _ my ey =>
      let '(nx, ny, ez) := align mx ex my ey in
      binary_normalize prec emax (cond_Zopp sx (Z.rem nx ny)) ez sx
  end.

Definition rem (x y : float) : float := SF2Prim (SFrem (Prim2SF x) (Prim2SF y)).

(** [Math.floor]: the value is left alone unless it has a fractional
    part; the integer below it is then exactly representable. *)
Definition SFfloor (x : spec_float) : spec_float :=
  match x with
  | S754_finite s m (Zneg k) =>
      binary_normalize prec emax (Z.shiftr (cond_Zopp s (Zpos m)) (Zpos k)) 0 false
  | _ => x
  end.

Definition floor (x : float) : float := SF2Prim (SFfloor (Prim2SF x)).

(** The array index that a number denotes as a property key: a
    non-negative integer.  Any other key reads [undefined]. *)
Definition SFindex (x : spec_float) : option nat :=
  match x with
  | S754_zero _ => Some O
  | S754_finite false m (Zneg k) =>
      if Z.eqb (Z.land (Zpos m) (Z.ones (Zpos k))) 0
      then Some (Z.to_nat (Z.shiftr (Zpos m) (Zpos k))) else None
  | S754_finite false m e => Some (Z.to_nat (Z.shiftl (Zpos m) e))
  | _ => None
  end.

Definition index (x : float) : option nat := SFindex (Prim2SF x).

(** The number denoted by an integer (exact below 2^53). *)
Definition of_Z (n : Z) : float := SF2Prim (binary_normalize prec emax n 0 false).

(** [Math.max(a, b)] and [Math.min(a, b)]: NaN if an argument is NaN, and
    [-0] is smaller than [+0]. *)
Definition is_neg_zero (a : float) : bool := is_zero a && get_sign a.

Definition max (a b : float) : float :=
  if is_nan a || is_nan b then nan
  else if a <? b then b
  else if b <? a then a
  else if is_neg_zero a then b else a.

Definition min (a b : float) : float :=
  if is_nan a || is_nan b then nan
  else if a <? b then a
  else if b <? a then b
  else if is_neg_zero a then a else b.

End JS.

Infix "%%" := JS.rem (at level 40, left associativity) : float_scope.

Open Scope float_scope.

(** ** The scene objects

    Of the three.js objects only the fields that the component reads or
    writes are kept.  The library itself is a parameter: [getPoint] is
    [CatmullRomCurve3.getPoint], typed [number -> Vector3] by the library's
    declarations, and [lookAtRotation] is the quaternion that
    [Object3D.lookAt] stores, a function of the object's position and of
    the target (the up vector and the parent scene never change).

    The typed signature is total; the library itself raises a TypeError
    when the parameter is NaN or infinite (see [CatmullRom.getPoint]
    below, which returns [None] there).  The loop passes such a parameter
    only after a speed that is not a number, which the range input never
    delivers: for numbers every parameter lies in the unit interval
    ([spline_parameters_in_range]).  The model is not to be read at NaN
    speeds. *)

Record Vector3 := vec3 { x : float; y : float; z : float }.

Record Quaternion := quat { qx : float; qy : float; qz : float; qw : float }.

Record CatmullRomCurve3 := { points : list Vector3; closed : bool }.

Record Mesh := { position : Vector3; quaternion : Quaternion }.

Class Three := {
  getPoint : CatmullRomCurve3 -> float -> Vector3;
  lookAtRotation : Vector3 -> Vector3 -> Quaternion
}.

(** [new THREE.Mesh(...)]: at the origin, with the identity rotation. *)
Definition newMesh : Mesh :=
  {| position := vec3 0 0 0; quaternion := quat 0 0 0 1 |}.

(** [mesh.position.copy(point)] *)
Definition position_copy (point : Vector3) (mesh : Mesh) : Mesh :=
  {| position := point; quaternion := quaternion mesh |}.

(** [mesh.lookAt(target)] *)
Definition lookAt `{Three} (target : Vector3) (mesh : Mesh) : Mesh :=
  {| position := position mesh;
     quaternion := lookAtRotation (position mesh) target |}.

(** ** The browser and the calls into the library

    [requestAnimationFrame] hands out a fresh handle and queues the
    callback; every queued callback of this component is [animate], so the
    queue keeps the handles only.  Calls whose effect lies outside the
    component (the camera controls, the renderer) are logged in order. *)

Inductive Call :=
| ControlsUpdate
| RendererRender (drawn : Mesh)
| RequestAnimationFrame (handle : N)
| CancelAnimationFrame (handle : N).

Record Browser := {
  frameCallbacks : list N;
  lastHandle : N;
  calls : list Call
}.

Definition call (c : Call) (b : Browser) : Browser :=
  {| frameCallbacks := frameCallbacks b;
     lastHandle := lastHandle b;
     calls := calls b ++ [c] |}.

Definition requestAnimationFrame (b : Browser) : N * Browser :=
  let handle := N.succ (lastHandle b) in
  (handle,
   {| frameCallbacks := frameCallbacks b ++ [handle];
      lastHandle := handle;
      calls := calls b ++ [RequestAnimationFrame handle] |}).

Definition cancelAnimationFrame (handle : N) (b : Browser) : Browser :=
  {| frameCallbacks := filter (fun h => negb (N.eqb h handle)) (frameCallbacks b);
     lastHandle := lastHandle b;
     calls := calls b ++ [CancelAnimationFrame handle] |}.

(** ** The track *)

(** The control points of the second rendition (the elevated track). *)
Definition curvePoints : list Vector3 :=
  [ vec3 (-10) 2 0;
    vec3 (-5) 6 5;
    vec3 0 2 10;
    vec3 5 4 5;
    vec3 10 2 0;
    vec3 5 6 (-5);
    vec3 0 2 (-10);
    vec3 (-5) 4 (-5);
    vec3 (-10) 2 0 ].

(** [new THREE.CatmullRomCurve3(curvePoints)] followed by
    [curve.closed = true]. *)
Definition trackCurve : CatmullRomCurve3 :=
  {| points := curvePoints; closed := true |}.

(** ** The component (second rendition: playback controls) *)

Record ControlState := {
  speed : float;
  isPlaying : bool;
  direction : float
}.

Record SceneRef := {
  ball : Mesh;
  curve : CatmullRomCurve3;
  progress : float;
  animationFrameId : option N
}.

Record Component := {
  speedRef : float;
  isPlayingRef : bool;
  directionRef : float;
  controlState : ControlState;
  sceneRef : option SceneRef;
  browser : Browser
}.

Definition set_scene (s : option SceneRef) (b : Browser) (c : Component) : Component :=
  {| speedRef := speedRef c;
     isPlayingRef := isPlayingRef c;
     directionRef := directionRef c;
     controlState := controlState c;
     sceneRef := s;
     browser := b |}.

Definition set_animationFrameId (id : N) (s : SceneRef) : SceneRef :=
  {| ball := ball s;
     curve := curve s;
     progress := progress s;
     animationFrameId := Some id |}.

(** The body of [if (isPlayingRef.current) { ... }] in [animate]. *)
Definition advance `{Three} (c : Component) (s : SceneRef) : SceneRef :=
  let newProgress := progress s + speedRef c * directionRef c in
  let newProgress := if JS.gt newProgress 1 then 0 else newProgress in
  let newProgress := if JS.lt newProgress 0 then 1 else newProgress in
  let point := getPoint (curve s) newProgress in
  let ball := position_copy point (ball s) in
  let nextPoint :=
    getPoint (curve s) ((newProgress + 0.01 * directionRef c + 1) %% 1) in
  let ball := lookAt nextPoint ball in
  {| ball := ball;
     curve := curve s;
     progress := newProgress;
     animationFrameId := animationFrameId s |}.

(** The animation loop: one call is one frame. *)
Definition animate `{Three} (c : Component) : Component :=
  match sceneRef c with
  | None => c
  | Some s =>
      let s := if isPlayingRef c then advance c s else s in
      let b := call ControlsUpdate (browser c) in
      let b := call (RendererRender (ball s)) b in
      let '(id, b) := requestAnimationFrame b in
      set_scene (Some (set_animationFrameId id s)) b c
  end.

(** The component before its effect has run: the initial values of the
    refs and of the React state. *)
Definition ThreePortfolio (b : Browser) : Component :=
  {| speedRef := 0.001;
     isPlayingRef := true;
     directionRef := 1;
     controlState := {| speed := 0.001; isPlaying := true; direction := 1 |};
     sceneRef := None;
     browser := b |}.

(** The effect, for a mounted element: it builds the scene, puts the ball
    at the start of the track, stores the scene with progress 0 and calls
    [animate] once. *)
Definition useEffect `{Three} (c : Component) : Component :=
  let ball := position_copy (getPoint trackCurve 0) newMesh in
  let s := {| ball := ball; curve := trackCurve; progress := 0;
              animationFrameId := None |} in
  animate (set_scene (Some s) (browser c) c).

(** The cleanup that the effect returns, as far as the animation loop is
    concerned: a stored handle that is truthy is cancelled. *)
Definition cleanup (c : Component) : Component :=
  match sceneRef c with
  | Some {| animationFrameId := Some id |} =>
      if N.eqb id 0 then c
      else set_scene (sceneRef c) (cancelAnimationFrame id (browser c)) c
  | _ => c
  end.

(** *** The handlers of the controls *)

Definition handleSpeedChange (newSpeed : float) (c : Component) : Component :=
  {| speedRef := newSpeed;
     isPlayingRef := isPlayingRef c;
     directionRef := directionRef c;
     controlState := {| speed := newSpeed;
                        isPlaying := isPlaying (controlState c);
                        direction := direction (controlState c) |};
     sceneRef := sceneRef c;
     browser := browser c |}.

Definition handlePlayingChange (c : Component) : Component :=
  let playing := negb (isPlayingRef c) in
  {| speedRef := speedRef c;
     isPlayingRef := playing;
     directionRef := directionRef c;
     controlState := {| speed := speed (controlState c);
                        isPlaying := playing;
                        direction := direction (controlState c) |};
     sceneRef := sceneRef c;
     browser := browser c |}.

Definition handleDirectionChange (newDirection : float) (c : Component) : Component :=
  {| speedRef := speedRef c;
     isPlayingRef := isPlayingRef c;
     directionRef := newDirection;
     controlState := {| speed := speed (controlState c);
                        isPlaying := isPlaying (controlState c);
                        direction := newDirection |};
     sceneRef := sceneRef c;
     browser := browser c |}.

(** The [onClick] of the Slower and Faster buttons. *)
Definition slower (c : Component) : Component :=
  handleSpeedChange (JS.max 0.0001 (speed (controlState c) - 0.0001)) c.

Definition faster (c : Component) : Component :=
  handleSpeedChange (JS.min 0.005 (speed (controlState c) + 0.0001)) c.

(** *** Events

    The browser runs the queued frame callbacks (the queue is emptied
    first, callbacks queued meanwhile wait for the next frame); the user
    presses a button or moves the speed slider, and React renders again
    before the next event. *)

Inductive Event :=
| AnimationFrame
| ClickStartStop
| ClickBackward
| ClickForward
| ClickSlower
| ClickFaster
| SlideSpeed (value : float).

Definition runFrameCallbacks `{Three} (c : Component) : Component :=
  let b := browser c in
  let emptied := {| frameCallbacks := []; lastHandle := lastHandle b;
                    calls := calls b |} in
  fold_left (fun c _ => animate c) (frameCallbacks b)
            (set_scene (sceneRef c) emptied c).

Definition step `{Three} (c : Component) (e : Event) : Component :=
  match e with
  | AnimationFrame => runFrameCallbacks c
  | ClickStartStop => handlePlayingChange c
  | ClickBackward => handleDirectionChange (-1) c
  | ClickForward => handleDirectionChange 1 c
  | ClickSlower => slower c
  | ClickFaster => faster c
  | SlideSpeed value => handleSpeedChange value c
  end.

Definition run `{Three} (events : list Event) (c : Component) : Component :=
  fold_left step events c.

(** A browser in which this component has queued nothing yet. *)
Definition freshBrowser (handle : N) : Browser :=
  {| frameCallbacks := []; lastHandle := handle; calls := [] |}.

Definition mounted `{Three} (handle : N) : Component :=
  useEffect (ThreePortfolio (freshBrowser handle)).

(** ** The first rendition (no controls)

    The file also holds the earlier form of the component: the loop always
    advances by 0.001 and wraps with the remainder operator, and the handle
    of the queued callback is not kept. *)

Module First.

Record SceneRef := {
  ball : Mesh;
  curve : CatmullRomCurve3;
  progress : float
}.

Record Component := {
  sceneRef : option SceneRef;
  browser : Browser
}.

Definition curvePoints : list Vector3 :=
  [ vec3 (-10) 0 0;
    vec3 (-5) 4 5;
    vec3 0 0 10;
    vec3 5 (-4) 5;
    vec3 10 0 0;
    vec3 5 4 (-5);
    vec3 0 0 (-10);
    vec3 (-5) (-4) (-5);
    vec3 (-10) 0 0 ].

Definition trackCurve : CatmullRomCurve3 :=
  {| points := curvePoints; closed := true |}.

Definition animate `{Three} (c : Component) : Component :=
  match sceneRef c with
  | None => c
  | Some s =>
      let newProgress := (progress s + 0.001) %% 1 in
      let point := getPoint (curve s) newProgress in
      let ball := position_copy point (ball s) in
      let nextPoint := getPoint (curve s) ((newProgress + 0.01) %% 1) in
      let ball := lookAt nextPoint ball in
      let b := call ControlsUpdate (browser c) in
      let b := call (RendererRender ball) b in
      let '(_, b) := requestAnimationFrame b in
      {| sceneRef := Some {| ball := ball; curve := curve s;
                             progress := newProgress |};
         browser := b |}
  end.

Definition useEffect `{Three} (b : Browser) : Component :=
  animate {| sceneRef := Some {| ball := newMesh; curve := trackCurve;
                                 progress := 0 |};
             browser := b |}.

(** A frame of the browser: the queue is emptied and every callback that
    was queued runs; each of them is [animate], reading the shared ref. *)
Definition runFrameCallbacks `{Three} (c : Component) : Component :=
  let b := browser c in
  fold_left (fun c _ => animate c) (frameCallbacks b)
            {| sceneRef := sceneRef c;
               browser := {| frameCallbacks := []; lastHandle := lastHandle b;
                             calls := calls b |} |}.

Definition frames `{Three} (n : nat) (c : Component) : Component :=
  Nat.iter n runFrameCallbacks c.

(** The cleanup of this rendition removes the resize listener and the
    canvas; it cancels nothing, so the loop's state is left as it is. *)
Definition cleanup (c : Component) : Component := c.

(** The effect run again after its cleanup (as React does for a
    remount): a new scene is stored in the same ref, in the same browser. *)
Definition remount `{Three} (c : Component) : Component :=
  useEffect (browser (cleanup c)).

End First.

(** ** The spline of the library *)

Module CatmullRom.

Definition subVectors (a b : Vector3) : Vector3 :=
  vec3 (x a - x b) (y a - y b) (z a - z b).

Definition add (a b : Vector3) : Vector3 :=
  vec3 (x a + x b) (y a + y b) (z a + z b).

(** [points[k]] *)
Definition at_index (ps : list Vector3) (k : float) : option Vector3 :=
  match JS.index k with
  | Some n => nth_error ps n
  | None => None
  end.

Section Spline.

(** The cubic through [p1] (weight 0) and [p2] (weight 1) that the
    library fits to four consecutive control points; which cubic depends
    on the curve type, and the default type calls [Math.pow], which the
    language standard leaves to the implementation. *)
Variable kernel : Vector3 -> Vector3 -> Vector3 -> Vector3 -> float -> Vector3.

(** Modelled from the spec: the evaluation of the closed Catmull-Rom
    spline at a parameter.  It is [CatmullRomCurve3.getPoint] of three.js,
    which is not under src/: the parameter is scaled by the number of
    segments, its integer part selects four consecutive control points
    (cyclically when the curve is closed, with an extrapolated point at
    either end when it is open) and its fractional part is the weight
    handed to the cubic.  [None] stands for the TypeError raised when a
    control point is read outside the array. *)
Definition getPoint (c : CatmullRomCurve3) (t : float) : option Vector3 :=
  let ps := points c in
  let l := JS.of_Z (Z.of_nat (length ps)) in
  let p := (l - (if closed c then 0 else 1)) * t in
  let intPoint := JS.floor p in
  let weight := p - intPoint in
  let '(intPoint, weight) :=
    if closed c then
      (intPoint + (if JS.gt intPoint 0 then 0
                   else (JS.floor (abs intPoint / l) + 1) * l),
       weight)
    else if (weight =? 0) && (intPoint =? l - 1) then (l - 2, 1)
    else (intPoint, weight) in
  let p0 :=
    if closed c || JS.gt intPoint 0 then at_index ps ((intPoint - 1) %% l)
    else
      match at_index ps 0, at_index ps 1 with
      | Some a, Some b => Some (add (subVectors a b) a)
      | _, _ => None
      end in
  let p1 := at_index ps (intPoint %% l) in
  let p2 := at_index ps ((intPoint + 1) %% l) in
  let p3 :=
    if closed c || JS.lt (intPoint + 2) l then at_index ps ((intPoint + 2) %% l)
    else
      match at_index ps (l - 1), at_index ps (l - 2) with
      | Some a, Some b => Some (add (subVectors a b) a)
      | _, _ => None
      end in
  match p0, p1, p2, p3 with
  | Some p0, Some p1, Some p2, Some p3 => Some (kernel p0 p1 p2 p3 weight)
  | _, _, _, _ => None
  end.

End Spline.

(** The cubic of the curve type 'catmullrom' (tension 0.5), one coordinate
    at a time. *)
Definition cubic (x0 x1 x2 x3 t : float) : float :=
  let t0 := 0.5 * (x2 - x0) in
  let t1 := 0.5 * (x3 - x1) in
  let c0 := x1 in
  let c1 := t0 in
  let c2 := -3 * x1 + 3 * x2 - 2 * t0 - t1 in
  let c3 := 2 * x1 - 2 * x2 + t0 + t1 in
  let t2 := t * t in
  let t3 := t2 * t in
  c0 + c1 * t + c2 * t2 + c3 * t3.

Definition uniform (p0 p1 p2 p3 : Vector3) (t : float) : Vector3 :=
  vec3 (cubic (x p0) (x p1) (x p2) (x p3) t)
       (cubic (y p0) (y p1) (y p2) (y p3) t)
       (cubic (z p0) (z p1) (z p2) (z p3) t).

End CatmullRom.

(** ** An executable instance of the library

    The statements below hold for every [Three].  To run the model on
    concrete inputs the parameters are instantiated with the library's own
    formulas: the spline above with the cubic of type 'catmullrom' (the
    scene keeps the default type, whose [Math.pow] cannot be evaluated
    here), and the rotation that [Object3D.lookAt] computes for an object
    other than a camera or a light whose parent is not rotated.  The
    numbers this instance yields are therefore not those of the scene, and
    no statement below asserts one; where the library would raise, the
    instance yields a vector of NaN. *)

Module Sample.

Import CatmullRom.

Definition getPoint (c : CatmullRomCurve3) (t : float) : Vector3 :=
  match CatmullRom.getPoint uniform c t with
  | Some v => v
  | None => vec3 nan nan nan
  end.

Definition lengthSq (v : Vector3) : float := x v * x v + y v * y v + z v * z v.

(** [v.normalize()]: a zero (or NaN) length is replaced by 1. *)
Definition normalize (v : Vector3) : Vector3 :=
  let len := sqrt (lengthSq v) in
  let len := if is_zero len || is_nan len then 1 else len in
  let k := 1 / len in
  vec3 (x v * k) (y v * k) (z v * k).

Definition crossVectors (a b : Vector3) : Vector3 :=
  vec3 (y a * z b - z a * y b) (z a * x b - x a * z b) (x a * y b - y a * x b).

(** [Matrix4.lookAt(eye, target, up)]: the three axes of the rotation. *)
Definition axes (eye target up : Vector3) : Vector3 * Vector3 * Vector3 :=
  let vz := subVectors eye target in
  let vz := if lengthSq vz =? 0 then vec3 (x vz) (y vz) 1 else vz in
  let vz := normalize vz in
  let vx := crossVectors up vz in
  let '(vx, vz) :=
    if lengthSq vx =? 0 then
      let vz := if abs (z up) =? 1 then vec3 (x vz + 0.0001) (y vz) (z vz)
                else vec3 (x vz) (y vz) (z vz + 0.0001) in
      let vz := normalize vz in
      (crossVectors up vz, vz)
    else (vx, vz) in
  let vx := normalize vx in
  (vx, crossVectors vz vx, vz).

(** [Quaternion.setFromRotationMatrix] on the matrix whose columns are
    the three axes. *)
Definition setFromRotationMatrix (a : Vector3 * Vector3 * Vector3) : Quaternion :=
  let '(vx, vy, vz) := a in
  let m11 := x vx in let m12 := x vy in let m13 := x vz in
  let m21 := y vx in let m22 := y vy in let m23 := y vz in
  let m31 := z vx in let m32 := z vy in let m33 := z vz in
  let trace := m11 + m22 + m33 in
  if JS.gt trace 0 then
    let s := 0.5 / sqrt (trace + 1) in
    quat ((m32 - m23) * s) ((m13 - m31) * s) ((m21 - m12) * s) (0.25 / s)
  else if JS.gt m11 m22 && JS.gt m11 m33 then
    let s := 2 * sqrt (1 + m11 - m22 - m33) in
    quat (0.25 * s) ((m12 + m21) / s) ((m13 + m31) / s) ((m32 - m23) / s)
  else if JS.gt m22 m33 then
    let s := 2 * sqrt (1 + m22 - m11 - m33) in
    quat ((m12 + m21) / s) (0.25 * s) ((m23 + m32) / s) ((m13 - m31) / s)
  else
    let s := 2 * sqrt (1 + m33 - m11 - m22) in
    quat ((m13 + m31) / s) ((m23 + m32) / s) (0.25 * s) ((m21 - m12) / s).

Definition lookAtRotation (position target : Vector3) : Quaternion :=
  setFromRotationMatrix (axes target position (vec3 0 1 0)).

Definition three : Three := Build_Three getPoint lookAtRotation.

End Sample.

(** ** Classes of binary64 values *)

Module Spec.

(** Zero or a finite non-zero number. *)
Definition finite (x : spec_float) : bool :=
  match x with
  | S754_zero _ | S754_finite _ _ _ => true
  | _ => false
  end.

Definition is_nan (x : spec_float) : bool :=
  match x with S754_nan => true | _ => false end.

(** A finite non-zero number. *)
Definition normal (x : spec_float) : bool :=
  match x with S754_finite _ _ _ => true | _ => false end.

(** A zero, a positive number or plus infinity. *)
Definition nonneg (x : spec_float) : bool :=
  match x with
  | S754_zero _ | S754_infinity false | S754_finite false _ _ => true
  | _ => false
  end.

(** The number 1. *)
Definition one : spec_float := S754_finite false 4503599627370496 (-52).

End Spec.

Definition is_finite (f : float) : bool := Spec.finite (Prim2SF f).

(** ** Ranges, invariants and sample states *)

(** [0 <= p <= 1] *)
Definition in_unit (p : float) : bool := (0 <=? p) && (p <=? 1).

(** The range of the speed slider: [min="0.0001"], [max="0.005"]. *)
Definition in_speed_range (s : float) : bool := (0.0001 <=? s) && (s <=? 0.005).

(** The two values that the direction buttons pass. *)
Definition is_direction (d : float) : Prop := d = 1 \/ d = -1.

(** Events of a user who leaves the slider alone, and events whose slider
    values lie in the slider's range. *)
Definition no_slider (e : Event) : Prop :=
  match e with SlideSpeed _ => False | _ => True end.

Definition slider_in_range (e : Event) : Prop :=
  match e with SlideSpeed v => in_speed_range v = true | _ => True end.

(** The speeds that presses of Slower and Faster can produce from 0.001:
    the closure of the initial speed under the two [onClick] expressions,
    computed breadth first. *)
Definition slowerSpeed (s : float) : float := JS.max 0.0001 (s - 0.0001).
Definition fasterSpeed (s : float) : float := JS.min 0.005 (s + 0.0001).

Definition mem (s : float) (l : list float) : bool := existsb (Leibniz.eqb s) l.

Definition add_new (s : float) (acc : list float * list float) :=
  if mem s (fst acc) then acc else (s :: fst acc, s :: snd acc).

Fixpoint closure (fuel : nat) (seen frontier : list float) : list float :=
  match fuel with
  | O => seen
  | S fuel =>
      match frontier with
      | [] => seen
      | _ =>
          let '(seen, new) :=
            fold_left (fun acc s => add_new (fasterSpeed s) (add_new (slowerSpeed s) acc))
                      frontier (seen, []) in
          closure fuel seen new
      end
  end.

Definition buttonSpeeds : list float :=
  Eval vm_compute in closure 200 [0.001] [0.001].

(** The number of [requestAnimationFrame] calls in a log, and of frames in
    a list of events. *)
Definition requests (l : list Call) : nat :=
  length (filter (fun c => match c with RequestAnimationFrame _ => true | _ => false end) l).

Definition frames (l : list Event) : nat :=
  length (filter (fun e => match e with AnimationFrame => true | _ => false end) l).

(** Two runs that end paused at the same progress, speed and
    direction: the first stops right after mounting; the second lets one
    more frame pass, reverses for a frame, stops, and selects Forward
    again. *)
Definition stoppedEarly `{Three} : Component :=
  run [ClickStartStop] (mounted 0).

Definition stoppedAfterReversal `{Three} : Component :=
  run [AnimationFrame; ClickBackward; AnimationFrame; ClickStartStop; ClickForward]
      (mounted 0).

(** A stored scene at a given progress, and the component that holds it
    with the initial settings of the controls, in either rendition; used
    to run the statements below on concrete frames. *)
Definition sceneAt (p : float) : SceneRef :=
  {| ball := newMesh; curve := trackCurve; progress := p;
     animationFrameId := None |}.

Definition componentAt (p : float) : Component :=
  set_scene (Some (sceneAt p)) (freshBrowser 0) (ThreePortfolio (freshBrowser 0)).

Definition firstSceneAt (p : float) : First.SceneRef :=
  {| First.ball := newMesh; First.curve := First.trackCurve;
     First.progress := p |}.

Definition firstComponentAt (p : float) : First.Component :=
  {| First.sceneRef := Some (firstSceneAt p); First.browser := freshBrowser 0 |}.

Definition sampleScene : SceneRef := sceneAt 0.25.

Definition sampleComponent : Component := componentAt 0.25.

(** The invariants of the event loop: the settings of the controls are
    numbers and a direction; the stored progress lies in the unit
    interval; the ball sits on the curve at that progress; the speeds are
    among those the buttons produce; exactly the frame callback whose
    handle is stored is queued. *)
Definition controls_ok (c : Component) : Prop :=
  is_nan (speedRef c) = false /\
  is_nan (speed (controlState c)) = false /\
  is_direction (directionRef c).

Definition progress_ok (c : Component) : Prop :=
  exists s, sceneRef c = Some s /\ in_unit (progress s) = true.

Definition on_curve `{Three} (c : Component) : Prop :=
  exists s, sceneRef c = Some s /\
            position (ball s) = getPoint (curve s) (progress s).

Definition speeds_ok (c : Component) : Prop :=
  mem (speedRef c) buttonSpeeds = true /\
  mem (speed (controlState c)) buttonSpeeds = true.

Definition one_pending (c : Component) : Prop :=
  exists s id,
    sceneRef c = Some s /\ animationFrameId s = Some id /\
    id <> 0%N /\ frameCallbacks (browser c) = [id].

(** ** The rest of the component *)

(** The effect run again after its cleanup: the refs and the React state
    persist, a new scene is stored. *)
Definition remount `{Three} (c : Component) : Component :=
  useEffect (cleanup c).

(** What the JSX shows of the controls: the label of the Start/Stop
    button, which direction button carries the highlight classes, and the
    value of the slider. *)
Inductive Label := Stop | Start.

Record View := {
  playLabel : Label;
  backwardHighlighted : bool;
  forwardHighlighted : bool;
  sliderValue : float
}.

Definition render (c : Component) : View :=
  {| playLabel := if isPlaying (controlState c) then Stop else Start;
     backwardHighlighted := direction (controlState c) =? -1;
     forwardHighlighted := direction (controlState c) =? 1;
     sliderValue := speed (controlState c) |}.

(** The refs that the loop reads agree with the state that is rendered. *)
Definition in_sync (c : Component) : Prop :=
  speedRef c = speed (controlState c) /\
  isPlayingRef c = isPlaying (controlState c) /\
  directionRef c = direction (controlState c).

(** Events other than a press of Start/Stop, and slider events that carry
    a number. *)
Definition no_start_stop (e : Event) : Prop :=
  match e with ClickStartStop => False | _ => True end.

Definition slider_is_number (e : Event) : Prop :=
  match e with SlideSpeed v => is_nan v = false | _ => True end.

(** The progress and the ball of the stored scene. *)
Definition pose (c : Component) : option (float * Mesh) :=
  option_map (fun s => (progress s, ball s)) (sceneRef c).

(** [[0,1)] *)
Definition in_half_open_unit (p : float) : bool := (0 <=? p) && (p <? 1).

(** A finite value of magnitude below [2^k]. *)
Definition magnitude_below (k : Z) (x : spec_float) : bool :=
  match x with
  | S754_zero _ => true
  | S754_finite _ m e => (Zpos (digits2_pos m) + e <=? k)%Z
  | _ => false
  end.

(** The parameter at which [animate] evaluates the curve for [lookAt]. *)
Definition lookAtParameter (newProgress direction : float) : float :=
  (newProgress + 0.01 * direction + 1) %% 1.

(** *** The rails

    [createRail] samples the track at [i / divisions] for
    [i = 0 .. divisions], with [divisions = 100], and shifts each sample
    sideways along the binormal.  The tangent of the curve, the cross
    product and the normalisation are the library's and are parameters
    here. *)

Definition multiplyScalar (v : Vector3) (k : float) : Vector3 :=
  vec3 (x v * k) (y v * k) (z v * k).

(** The values of [t = i / divisions] over [count] turns of the loop. *)
Definition samples (count : nat) (divisions : float) : list float :=
  map (fun i => JS.of_Z (Z.of_nat i) / divisions) (seq 0 count).

Definition railParameters : list float := samples 101 100.

Section Rails.

Context {T : Three}.
Variable getTangent : CatmullRomCurve3 -> float -> Vector3.
Variable crossVectors : Vector3 -> Vector3 -> Vector3.
Variable normalize : Vector3 -> Vector3.

(** The binormal of one turn of the loop. *)
Definition binormalAt (t : float) : Vector3 :=
  normalize (crossVectors (getTangent trackCurve t) (vec3 0 1 0)).

(** The control points of the curve that [createRail(offset)] builds. *)
Definition createRail (offset : float) : CatmullRomCurve3 :=
  {| points :=
       map (fun t => CatmullRom.add (getPoint trackCurve t)
                                    (multiplyScalar (binormalAt t) offset))
           railParameters;
     closed := false |}.

End Rails.

(** * Facts about binary64

    Proved on [spec_float], from the definitions of the operations. *)

Module SF.

Lemma compare_refl x : Spec.is_nan x = false -> SFcompare x x = Some Eq.
Proof.
  destruct x as [s|s| |s m e]; simpl; try discriminate; intros _.
  - reflexivity.
  - destruct s; reflexivity.
  - rewrite Z.compare_refl, Pos.compare_cont_refl. destruct s; reflexivity.
Qed.

Lemma compare_antisym x y :
  SFcompare y x = option_map CompOpp (SFcompare x y).
Proof.
  destruct x as [sx|sx| |sx mx ex], y as [sy|sy| |sy my ey]; simpl;
    try reflexivity;
    try (destruct sx; reflexivity); try (destruct sy; reflexivity);
    try (destruct sx, sy; reflexivity).
  rewrite (Z.compare_antisym ex ey).
  pose proof (Pos.compare_cont_antisym mx my Eq) as A. simpl in A.
  rewrite <- A.
  destruct sx, sy, (ex ?= ey)%Z; simpl; try reflexivity;
    now rewrite ?CompOpp_involutive.
Qed.

Lemma compare_total x y :
  Spec.is_nan x = false -> Spec.is_nan y = false -> exists c, SFcompare x y = Some c.
Proof.
  destruct x, y; simpl; try discriminate; intros _ _; eexists; reflexivity.
Qed.

Lemma spec_not_ltb_leb x y :
  Spec.is_nan x = false -> Spec.is_nan y = false -> SFltb x y = false -> SFleb y x = true.
Proof.
  intros Hx Hy. unfold SFltb, SFleb. rewrite (compare_antisym x y).
  destruct (compare_total x y Hx Hy) as [c ->]. now destruct c.
Qed.

(** Rounding a non-negative integer never yields NaN. *)
Lemma shr_1_nonneg mrs : (0 <= shr_m mrs)%Z -> (0 <= shr_m (shr_1 mrs))%Z.
Proof.
  destruct mrs as [m r s]. simpl.
  destruct m as [|p|p]; simpl; try lia; destruct p; simpl; lia.
Qed.

Lemma iter_shr_1_nonneg p : forall mrs,
  (0 <= shr_m mrs)%Z -> (0 <= shr_m (iter_pos shr_1 p mrs))%Z.
Proof.
  induction p as [p IH|p IH|]; simpl; intros mrs H.
  - apply IH, IH, shr_1_nonneg, H.
  - apply IH, IH, H.
  - apply shr_1_nonneg, H.
Qed.

Lemma shr_fexp_nonneg m e l :
  (0 <= m)%Z -> (0 <= shr_m (fst (shr_fexp prec emax m e l)))%Z.
Proof.
  intros H. unfold shr_fexp, shr.
  assert (Hm : (0 <= shr_m (shr_record_of_loc m l))%Z)
    by (destruct l as [|[ | | ]]; exact H).
  destruct (fexp prec emax (Zdigits2 m + e) - e)%Z; simpl; auto.
  now apply iter_shr_1_nonneg.
Qed.

Lemma round_nearest_even_nonneg m l :
  (0 <= m)%Z -> (0 <= round_nearest_even m l)%Z.
Proof.
  intros H. destruct l as [|[ | | ]]; simpl; try lia.
  destruct (Z.even m); lia.
Qed.

Lemma binary_round_aux_not_nan s m e l :
  (0 <= m)%Z -> Spec.is_nan (binary_round_aux prec emax s m e l) = false.
Proof.
  intros H. unfold binary_round_aux.
  pose proof (shr_fexp_nonneg m e l H) as H1.
  destruct (shr_fexp prec emax m e l) as [mrs' e']. simpl in H1.
  pose proof (shr_fexp_nonneg _ e' loc_Exact
                (round_nearest_even_nonneg _ (loc_of_shr_record mrs') H1)) as H2.
  destruct (shr_fexp prec emax _ e' loc_Exact) as [mrs'' e'']. simpl in H2.
  destruct (shr_m mrs''); try lia; try reflexivity.
  now destruct (e'' <=? emax - prec)%Z.
Qed.

Lemma binary_normalize_not_nan m e s :
  Spec.is_nan (binary_normalize prec emax m e s) = false.
Proof.
  destruct m; simpl; try reflexivity; unfold binary_round;
    destruct (shl_align _ _ _); now apply binary_round_aux_not_nan.
Qed.

Lemma spec_mul_not_nan x y :
  Spec.finite x = true -> Spec.finite y = true -> Spec.is_nan (SF64mul x y) = false.
Proof.
  destruct x, y; simpl; try discriminate; intros _ _; try reflexivity.
  now apply binary_round_aux_not_nan.
Qed.

Lemma spec_add_not_nan x y :
  Spec.finite x = true -> Spec.is_nan y = false -> Spec.is_nan (SF64add x y) = false.
Proof.
  destruct x as [sx| | |sx mx ex], y as [sy|sy| |sy my ey]; simpl;
    try discriminate; intros _ _; try reflexivity.
  - now destruct sx, sy.
  - apply binary_normalize_not_nan.
Qed.


Lemma spec_sub_not_nan x y :
  Spec.is_nan x = false -> Spec.finite y = true -> Spec.is_nan (SF64sub x y) = false.
Proof.
  destruct x as [sx|sx| |sx mx ex], y as [sy| | |sy my ey]; simpl;
    try discriminate; intros _ _; try reflexivity.
  - now destruct sx, sy.
  - apply binary_normalize_not_nan.
Qed.

Lemma spec_add_not_nan_r x y :
  Spec.is_nan x = false -> Spec.finite y = true -> Spec.is_nan (SF64add x y) = false.
Proof.
  destruct x as [sx|sx| |sx mx ex], y as [sy| | |sy my ey]; simpl;
    try discriminate; intros _ _; try reflexivity.
  - now destruct sx, sy.
  - apply binary_normalize_not_nan.
Qed.

Lemma spec_mul_not_nan_r x y :
  Spec.is_nan x = false -> Spec.normal y = true -> Spec.is_nan (SF64mul x y) = false.
Proof.
  destruct x as [sx|sx| |sx mx ex], y as [sy| | |sy my ey]; simpl;
    try discriminate; intros _ _; try reflexivity.
  now apply binary_round_aux_not_nan.
Qed.

Lemma binary_round_aux_nonneg m e l :
  (0 <= m)%Z -> Spec.nonneg (binary_round_aux prec emax false m e l) = true.
Proof.
  intros H. pose proof (binary_round_aux_not_nan false m e l H) as N.
  revert N. unfold binary_round_aux.
  destruct (shr_fexp prec emax m e l) as [mrs' e'].
  destruct (shr_fexp prec emax _ e' loc_Exact) as [mrs'' e''].
  destruct (shr_m mrs''); try reflexivity; try discriminate.
  now destruct (e'' <=? emax - prec)%Z.
Qed.

Lemma spec_add_nonneg x y :
  Spec.nonneg x = true -> Spec.nonneg y = true -> Spec.nonneg (SF64add x y) = true.
Proof.
  destruct x as [sx|[|]| |[|] mx ex], y as [sy|[|]| |[|] my ey]; simpl;
    try discriminate; intros _ _; try reflexivity.
  - now destruct sx, sy.
  - unfold binary_normalize. cbn [Z.add]. unfold binary_round.
    destruct (shl_align _ _ _). now apply binary_round_aux_nonneg.
Qed.

Lemma leb_zero_nonneg x : SFleb (S754_zero false) x = Spec.nonneg x.
Proof. destruct x as [s|[|]| |[|] m e]; reflexivity. Qed.

Lemma ltb_zero_nonneg x : Spec.nonneg x = true -> SFltb x (S754_zero false) = false.
Proof. destruct x as [s|[|]| |[|] m e]; try discriminate; reflexivity. Qed.

Lemma spec_ltb_asym x y : SFltb x y = true -> SFltb y x = false.
Proof.
  unfold SFltb. rewrite (compare_antisym x y).
  destruct (SFcompare x y) as [[ | | ]|]; try discriminate; reflexivity.
Qed.

(** Subtraction is the addition of the opposite. *)
Lemma spec_add_opp x y : SF64add x (SFopp y) = SF64sub x y.
Proof.
  destruct x as [sx|sx| |sx mx ex], y as [sy|sy| |sy my ey]; simpl;
    try reflexivity;
    destruct sx, sy; reflexivity.
Qed.

Lemma digits2_pos_bound m : (Zpos m < 2 ^ Zpos (digits2_pos m))%Z.
Proof.
  induction m as [m IH|m IH|]; simpl digits2_pos;
    rewrite ?Pos2Z.inj_succ, ?Z.pow_succ_r by lia; lia.
Qed.

Lemma iter_xO_lower d : forall p, (Zpos p~0 <= Zpos (Pos.iter xO p d))%Z.
Proof.
  induction d as [|d IH] using Pos.peano_ind; intros p.
  - simpl. lia.
  - rewrite Pos.iter_succ. specialize (IH p). lia.
Qed.

(** Rounding leaves a representable number alone. *)
Lemma binary_round_bounded s m e :
  bounded prec emax m e = true ->
  binary_round prec emax s m e = S754_finite s m e.
Proof.
  unfold bounded, canonical_mantissa. intros H.
  apply andb_prop in H. destruct H as [Hc He].
  apply Z.eqb_eq in Hc.
  unfold binary_round. rewrite Hc.
  unfold shl_align. rewrite Z.sub_diag.
  cbn [fst snd]. unfold binary_round_aux, shr_fexp.
  change (Zdigits2 (Z.pos m)) with (Z.pos (digits2_pos m)).
  rewrite Hc, Z.sub_diag. cbn [shr shr_record_of_loc shr_m loc_of_shr_record round_nearest_even].
  change (Zdigits2 (Z.pos m)) with (Z.pos (digits2_pos m)).
  rewrite Hc, Z.sub_diag. cbn [shr shr_record_of_loc shr_m].
  now rewrite He.
Qed.

Lemma canonical_mantissa_bound m e :
  canonical_mantissa prec emax m e = true -> (Zpos m < 2 ^ 53)%Z.
Proof.
  unfold canonical_mantissa, fexp. intros H. apply Z.eqb_eq in H.
  pose proof (digits2_pos_bound m) as B.
  assert (D : (Zpos (digits2_pos m) <= 53)%Z) by (unfold prec in H; lia).
  eapply Z.lt_le_trans; [exact B|].
  apply Z.pow_le_mono_r; lia.
Qed.

Lemma SFrem_small x :
  valid_binary x = true ->
  SFleb (S754_zero false) x = true -> SFltb x Spec.one = true ->
  JS.SFrem x Spec.one = x.
Proof.
  unfold valid_binary, Spec.one.
  destruct x as [s|s| |s m e]; intros Hv Hle Hlt.
  { reflexivity. }
  { destruct s; discriminate. }
  { discriminate. }
  cbn [SpecFloat.valid_binary] in Hv.
  destruct s; [discriminate Hle|]. clear Hle.
  unfold SFltb in Hlt. cbn [SFcompare] in Hlt.
  assert (Hm : (Zpos m < 2 ^ 53)%Z).
  { apply (canonical_mantissa_bound m e). unfold bounded in Hv.
    apply andb_prop in Hv. exact (proj1 Hv). }
  assert (Hr : forall n : positive, (Zpos m < Zpos n)%Z ->
     binary_normalize prec emax (cond_Zopp false (Z.rem (Zpos m) (Zpos n))) e false
     = S754_finite false m e).
  { intros n Hn. rewrite Z.rem_small by lia.
    cbn [cond_Zopp binary_normalize]. apply binary_round_bounded, Hv. }
  cbn [JS.SFrem]. unfold JS.align.
  destruct (e ?= -52)%Z eqn:Ec; try discriminate.
  - apply Z.compare_eq in Ec. subst e.
    change (Z.min (-52) (-52)) with (-52)%Z.
    unfold shl_align. rewrite Z.sub_diag. cbn [fst]. apply Hr.
    destruct (Pos.compare_cont Eq m 4503599627370496) eqn:Em;
      try discriminate Hlt.
    apply (proj1 (Pos.compare_lt_iff m 4503599627370496)) in Em.
    exact Em.
  - rewrite Z.compare_lt_iff in Ec.
    rewrite Z.min_l by lia.
    unfold shl_align. rewrite Z.sub_diag. cbn [fst].
    destruct (e - -52)%Z as [|d|d] eqn:Ed; try lia. cbn [fst].
    apply Hr.
    pose proof (iter_xO_lower d 4503599627370496) as L.
    change (Zpos 4503599627370496~0) with (2 ^ 53)%Z in L.
    exact (Z.lt_le_trans _ _ _ Hm L).
Qed.

End SF.

(** The same facts on [float], through the specification of the primitive
    operations ([Prim2SF] and the equations of [FloatAxioms]). *)

Module Num.

Lemma Prim2SF_one : Prim2SF 1 = Spec.one.
Proof. reflexivity. Qed.

Lemma Prim2SF_zero : Prim2SF 0 = S754_zero false.
Proof. reflexivity. Qed.

Lemma Prim2SF_inj a b : Prim2SF a = Prim2SF b -> a = b.
Proof.
  intros H. rewrite <- (SF2Prim_Prim2SF a), <- (SF2Prim_Prim2SF b).
  now rewrite H.
Qed.

Lemma is_nan_spec f : is_nan f = Spec.is_nan (Prim2SF f).
Proof.
  unfold is_nan. rewrite eqb_spec. unfold SFeqb.
  destruct (Spec.is_nan (Prim2SF f)) eqn:E.
  - destruct (Prim2SF f); try discriminate. reflexivity.
  - now rewrite (SF.compare_refl _ E).
Qed.

Lemma finite_not_nan f : is_finite f = true -> is_nan f = false.
Proof. rewrite is_nan_spec. unfold is_finite. now destruct (Prim2SF f). Qed.

Lemma add_not_nan a b :
  is_finite a = true -> is_nan b = false -> is_nan (a + b) = false.
Proof. rewrite !is_nan_spec, add_spec. apply SF.spec_add_not_nan. Qed.

Lemma add_not_nan_r a b :
  is_nan a = false -> is_finite b = true -> is_nan (a + b) = false.
Proof. rewrite !is_nan_spec, add_spec. apply SF.spec_add_not_nan_r. Qed.

Lemma sub_not_nan a b :
  is_nan a = false -> is_finite b = true -> is_nan (a - b) = false.
Proof. rewrite !is_nan_spec, sub_spec. apply SF.spec_sub_not_nan. Qed.

Lemma mul_not_nan_r a b :
  is_nan a = false -> Spec.normal (Prim2SF b) = true -> is_nan (a * b) = false.
Proof. rewrite !is_nan_spec, mul_spec. apply SF.spec_mul_not_nan_r. Qed.

Lemma not_ltb_leb a b :
  is_nan a = false -> is_nan b = false -> (a <? b) = false -> (b <=? a) = true.
Proof. rewrite !is_nan_spec, ltb_spec, leb_spec. apply SF.spec_not_ltb_leb. Qed.

Lemma ltb_asym a b : (a <? b) = true -> (b <? a) = false.
Proof. rewrite !ltb_spec. apply SF.spec_ltb_asym. Qed.

Lemma between_finite lo f hi :
  is_finite lo = true -> is_finite hi = true ->
  (lo <=? f) = true -> (f <=? hi) = true -> is_finite f = true.
Proof.
  unfold is_finite. rewrite !leb_spec. unfold SFleb.
  destruct (Prim2SF lo) as [?|?| |? ? ?]; try discriminate;
    destruct (Prim2SF hi) as [?|?| |? ? ?]; try discriminate;
    destruct (Prim2SF f) as [?|[|]| |? ? ?]; simpl; intros _ _;
    try reflexivity; try discriminate;
    repeat match goal with s : bool |- _ => destruct s end; discriminate.
Qed.

Lemma add_nonneg a b :
  (0 <=? a) = true -> (0 <=? b) = true -> (0 <=? a + b) = true.
Proof.
  rewrite !leb_spec, add_spec, Prim2SF_zero, !SF.leb_zero_nonneg.
  apply SF.spec_add_nonneg.
Qed.

Lemma nonneg_not_negative a : (0 <=? a) = true -> (a <? 0) = false.
Proof.
  rewrite leb_spec, ltb_spec, Prim2SF_zero, SF.leb_zero_nonneg.
  apply SF.ltb_zero_nonneg.
Qed.

Lemma rem_small a : (0 <=? a) = true -> (a <? 1) = true -> a %% 1 = a.
Proof.
  rewrite leb_spec, ltb_spec, Prim2SF_one, Prim2SF_zero. intros H0 H1.
  unfold JS.rem. rewrite Prim2SF_one, SF.SFrem_small; auto.
  - apply SF2Prim_Prim2SF.
  - apply Prim2SF_valid.
Qed.

Lemma add_opp a b : a + - b = a - b.
Proof.
  apply Prim2SF_inj. rewrite add_spec, sub_spec, opp_spec. apply SF.spec_add_opp.
Qed.

Lemma max_not_nan a b :
  is_nan a = false -> is_nan b = false -> is_nan (JS.max a b) = false.
Proof.
  intros Ha Hb. unfold JS.max. rewrite Ha, Hb. cbn [orb].
  destruct (a <? b); [exact Hb|].
  destruct (b <? a); [exact Ha|].
  now destruct (JS.is_neg_zero a).
Qed.

Lemma min_not_nan a b :
  is_nan a = false -> is_nan b = false -> is_nan (JS.min a b) = false.
Proof.
  intros Ha Hb. unfold JS.min. rewrite Ha, Hb. cbn [orb].
  destruct (a <? b); [exact Ha|].
  destruct (b <? a); [exact Hb|].
  now destruct (JS.is_neg_zero a).
Qed.

Lemma in_unit_finite p : in_unit p = true -> is_finite p = true.
Proof.
  unfold in_unit. intros H. apply andb_prop in H. destruct H as [H0 H1].
  now apply (between_finite 0 p 1).
Qed.

Lemma in_speed_range_not_nan s : in_speed_range s = true -> is_nan s = false.
Proof.
  unfold in_speed_range. intros H. apply andb_prop in H. destruct H as [H0 H1].
  apply finite_not_nan. now apply (between_finite 0.0001 s 0.005).
Qed.

Lemma direction_normal d : is_direction d -> Spec.normal (Prim2SF d) = true.
Proof. intros [-> | ->]; reflexivity. Qed.

Lemma negative_not_above_one n : (n <? 0) = true -> (1 <? n) = false.
Proof.
  rewrite !ltb_spec, Prim2SF_zero, Prim2SF_one. unfold SFltb, Spec.one.
  destruct (Prim2SF n) as [s|[|]| |[|] m e]; cbn [SFcompare];
    try discriminate; reflexivity.
Qed.

(** The snap of the second rendition lands in the unit interval as soon
    as the advanced value is a number. *)
Lemma snap_in_unit n :
  is_nan n = false ->
  in_unit (let n := if JS.gt n 1 then 0 else n in
           if JS.lt n 0 then 1 else n) = true.
Proof.
  intros Hn. cbv zeta. unfold JS.gt, JS.lt.
  destruct (1 <? n) eqn:G.
  - reflexivity.
  - destruct (n <? 0) eqn:L.
    + reflexivity.
    + unfold in_unit.
      rewrite (not_ltb_leb n 0 Hn eq_refl L), (not_ltb_leb 1 n eq_refl Hn G).
      reflexivity.
Qed.

End Num.

(** * The frame *)

Section Frame.

Context {T : Three}.

(** What a call of [animate] does once the scene is stored. *)
Lemma animate_scene c s :
  sceneRef c = Some s ->
  animate c =
  let s' := if isPlayingRef c then advance c s else s in
  let h := N.succ (lastHandle (browser c)) in
  set_scene (Some (set_animationFrameId h s'))
            {| frameCallbacks := frameCallbacks (browser c) ++ [h];
               lastHandle := h;
               calls := calls (browser c)
                          ++ [ControlsUpdate; RendererRender (ball s');
                              RequestAnimationFrame h] |}
            c.
Proof.
  intros H. unfold animate. rewrite H. cbv zeta.
  unfold requestAnimationFrame, call. cbn [frameCallbacks lastHandle calls].
  now rewrite <- !app_assoc.
Qed.

Lemma advance_not_nan c s :
  in_unit (progress s) = true -> is_nan (speedRef c) = false ->
  is_direction (directionRef c) ->
  is_nan (progress s + speedRef c * directionRef c) = false.
Proof.
  intros Hp Hs Hd. apply Num.add_not_nan.
  - now apply Num.in_unit_finite.
  - apply Num.mul_not_nan_r; [exact Hs|now apply Num.direction_normal].
Qed.

Lemma advance_in_unit c s :
  in_unit (progress s) = true -> is_nan (speedRef c) = false ->
  is_direction (directionRef c) ->
  in_unit (progress (advance c s)) = true.
Proof.
  intros Hp Hs Hd. unfold advance. cbn [progress].
  apply Num.snap_in_unit. now apply advance_not_nan.
Qed.

End Frame.

(** C1: in a frame with playback active the new progress is the old one
    advanced by speed*direction and brought back into [0,1]: it is 0 when
    the advanced value exceeds 1, 1 when it is below 0, and the advanced
    value itself otherwise; in each case it lies in [0,1]. *)
Theorem animate_advances_progress (T : Three) (c : Component) (s : SceneRef) :
  sceneRef c = Some s ->
  isPlayingRef c = true ->
  in_unit (progress s) = true ->
  in_speed_range (speedRef c) = true ->
  is_direction (directionRef c) ->
  exists s',
    sceneRef (animate c) = Some s' /\
    in_unit (progress s') = true /\
    let n := progress s + speedRef c * directionRef c in
    (JS.gt n 1 = true -> progress s' = 0) /\
    (JS.lt n 0 = true -> progress s' = 1) /\
    (JS.gt n 1 = false -> JS.lt n 0 = false -> progress s' = n).
Proof.
  intros Hs Hplay Hp Hv Hd.
  rewrite (animate_scene c s Hs), Hplay. cbv zeta.
  eexists. split; [reflexivity|]. cbn [progress set_animationFrameId].
  split.
  - apply advance_in_unit; auto. now apply Num.in_speed_range_not_nan.
  - unfold advance. cbn [progress]. unfold JS.gt, JS.lt.
    repeat split.
    + intros G. rewrite G. reflexivity.
    + intros L. rewrite (Num.negative_not_above_one _ L), L. reflexivity.
    + intros G L. rewrite G, L. reflexivity.
Qed.

Lemma animate_advances_progress_witness :
  exists s',
    sceneRef (@animate Sample.three sampleComponent) = Some s' /\
    in_unit (progress s') = true /\
    let n := 0.25 + 0.001 * 1 in
    (JS.gt n 1 = true -> progress s' = 0) /\
    (JS.lt n 0 = true -> progress s' = 1) /\
    (JS.gt n 1 = false -> JS.lt n 0 = false -> progress s' = n).
Proof.
  exact (animate_advances_progress Sample.three sampleComponent sampleScene
           eq_refl eq_refl eq_refl eq_refl (or_introl eq_refl)).
Defined.

(** C3: after a frame with playback active the ball sits at the point of
    the (unchanged) track curve at the updated progress. *)
Theorem ball_follows_curve (T : Three) (c : Component) (s : SceneRef) :
  sceneRef c = Some s ->
  isPlayingRef c = true ->
  exists s',
    sceneRef (animate c) = Some s' /\
    curve s' = curve s /\
    position (ball s') = getPoint (curve s') (progress s').
Proof.
  intros Hs Hplay. rewrite (animate_scene c s Hs), Hplay. cbv zeta.
  eexists. split; [reflexivity|]. split; reflexivity.
Qed.

Lemma ball_follows_curve_witness :
  exists s',
    sceneRef (@animate Sample.three sampleComponent) = Some s' /\
    curve s' = trackCurve /\
    position (ball s') = Sample.getPoint (curve s') (progress s').
Proof.
  exact (ball_follows_curve Sample.three sampleComponent sampleScene
           eq_refl eq_refl).
Defined.

(** C4: in a frame with playback active the ball is turned toward the
    curve point at parameter (newProgress + 0.01*direction + 1) mod 1,
    that is newProgress + 0.01 (mod 1) when the direction is 1 and
    newProgress - 0.01 (mod 1) when it is -1. *)
Theorem ball_looks_along_travel (T : Three) (c : Component) (s : SceneRef) :
  sceneRef c = Some s ->
  isPlayingRef c = true ->
  exists s',
    sceneRef (animate c) = Some s' /\
    let t := (progress s' + 0.01 * directionRef c + 1) %% 1 in
    quaternion (ball s') =
      lookAtRotation (position (ball s')) (getPoint (curve s') t) /\
    (directionRef c = 1 -> t = (progress s' + 0.01 + 1) %% 1) /\
    (directionRef c = -1 -> t = (progress s' - 0.01 + 1) %% 1).
Proof.
  intros Hs Hplay. rewrite (animate_scene c s Hs), Hplay. cbv zeta.
  eexists. split; [reflexivity|]. split; [reflexivity|].
  cbn [progress set_animationFrameId]. split; intros ->.
  - reflexivity.
  - change (0.01 * -1) with (opp 0.01). now rewrite Num.add_opp.
Qed.

Lemma ball_looks_along_travel_witness :
  exists s',
    sceneRef (@animate Sample.three sampleComponent) = Some s' /\
    let t := (progress s' + 0.01 * 1 + 1) %% 1 in
    quaternion (ball s') =
      Sample.lookAtRotation (position (ball s')) (Sample.getPoint (curve s') t) /\
    (1 = 1 -> t = (progress s' + 0.01 + 1) %% 1) /\
    (1 = -1 -> t = (progress s' - 0.01 + 1) %% 1).
Proof.
  exact (ball_looks_along_travel Sample.three sampleComponent sampleScene
           eq_refl eq_refl).
Defined.

(** C6: every frame calls the controls' update, renders the scene and
    requests the next frame, in this order, whether playback is active or
    not; when it is paused the progress and the ball (position and
    orientation) are left as they were. *)
Theorem paused_frame_only_renders (T : Three) (c : Component) (s : SceneRef) :
  sceneRef c = Some s ->
  exists s',
    sceneRef (animate c) = Some s' /\
    calls (browser (animate c)) =
      calls (browser c)
        ++ [ControlsUpdate; RendererRender (ball s');
            RequestAnimationFrame (N.succ (lastHandle (browser c)))] /\
    (isPlayingRef c = false -> progress s' = progress s /\ ball s' = ball s).
Proof.
  intros Hs. rewrite (animate_scene c s Hs). cbv zeta.
  eexists. split; [reflexivity|]. split; [reflexivity|].
  intros ->. split; reflexivity.
Qed.

Lemma paused_frame_only_renders_witness :
  exists s',
    sceneRef (@animate Sample.three (handlePlayingChange sampleComponent)) = Some s' /\
    calls (browser (@animate Sample.three (handlePlayingChange sampleComponent))) =
      [ControlsUpdate; RendererRender (ball s'); RequestAnimationFrame 1] /\
    (false = false -> progress s' = 0.25 /\ ball s' = newMesh).
Proof.
  exact (paused_frame_only_renders Sample.three
           (handlePlayingChange sampleComponent) sampleScene eq_refl).
Defined.

(** * The event loop *)

Section Loop.

Context {T : Three}.

(** An invariant of every step is an invariant of every run. *)
Lemma run_invariant (P : Component -> Prop) (ok : Event -> Prop) :
  (forall c e, ok e -> P c -> P (step c e)) ->
  forall events c, Forall ok events -> P c -> P (run events c).
Proof.
  intros Hstep events. unfold run.
  induction events as [|e events IH]; intros c Hok Hc; [exact Hc|].
  inversion Hok; subst. cbn [fold_left]. apply IH; auto.
Qed.

(** The frame callbacks keep what [animate] keeps, whatever is queued. *)
Lemma runFrameCallbacks_invariant (P : Component -> Prop) :
  (forall c, P c -> P (animate c)) ->
  (forall c b, P c -> P (set_scene (sceneRef c) b c)) ->
  forall c, P c -> P (runFrameCallbacks c).
Proof.
  intros Hanimate Hbrowser c Hc. unfold runFrameCallbacks. cbv zeta.
  generalize (frameCallbacks (browser c)).
  generalize (Hbrowser c {| frameCallbacks := [];
                            lastHandle := lastHandle (browser c);
                            calls := calls (browser c) |} Hc).
  generalize (set_scene (sceneRef c)
                {| frameCallbacks := []; lastHandle := lastHandle (browser c);
                   calls := calls (browser c) |} c).
  intros c' Hc' l. revert c' Hc'.
  induction l as [|h l IH]; intros c' Hc'; cbn [fold_left]; auto.
Qed.

(** [animate] reads the controls and never writes them. *)
Lemma animate_controls c :
  speedRef (animate c) = speedRef c /\
  isPlayingRef (animate c) = isPlayingRef c /\
  directionRef (animate c) = directionRef c /\
  controlState (animate c) = controlState c.
Proof.
  unfold animate. destruct (sceneRef c); repeat split; reflexivity.
Qed.

Lemma animate_controls_ok c : controls_ok c -> controls_ok (animate c).
Proof.
  unfold controls_ok. destruct (animate_controls c) as (-> & _ & -> & ->).
  auto.
Qed.

Lemma animate_progress_ok c :
  controls_ok c -> progress_ok c -> progress_ok (animate c).
Proof.
  intros (Hs & _ & Hd) (s & Hscene & Hp).
  rewrite (animate_scene c s Hscene). cbv zeta.
  eexists. split; [reflexivity|]. cbn [progress set_animationFrameId].
  destruct (isPlayingRef c); [|exact Hp].
  now apply advance_in_unit.
Qed.

Lemma animate_on_curve c : on_curve c -> on_curve (animate c).
Proof.
  intros (s & Hscene & Hb).
  rewrite (animate_scene c s Hscene). cbv zeta.
  eexists. split; [reflexivity|].
  cbn [progress ball curve set_animationFrameId].
  destruct (isPlayingRef c); [reflexivity|exact Hb].
Qed.

Lemma step_on_curve c e : on_curve c -> on_curve (step c e).
Proof.
  intros H. destruct e; cbn [step]; try exact H.
  apply (runFrameCallbacks_invariant on_curve); auto.
  apply animate_on_curve.
Qed.

Lemma mounted_on_curve h : on_curve (mounted h).
Proof.
  unfold mounted, useEffect. cbv zeta. apply animate_on_curve.
  eexists. split; reflexivity.
Qed.

Lemma step_keeps_progress_in_unit c e :
  slider_in_range e ->
  controls_ok c /\ progress_ok c ->
  controls_ok (step c e) /\ progress_ok (step c e).
Proof.
  intros He [Hc Hp]. destruct e; cbn [step].
  - apply (runFrameCallbacks_invariant
             (fun c => controls_ok c /\ progress_ok c)); auto.
    + intros c' [Hc' Hp']. split.
      * now apply animate_controls_ok.
      * now apply animate_progress_ok.
  - split; [|exact Hp]. exact Hc.
  - split; [|exact Hp]. destruct Hc as (? & ? & _).
    repeat split; auto. now right.
  - split; [|exact Hp]. destruct Hc as (? & ? & _).
    repeat split; auto. now left.
  - split; [|exact Hp]. destruct Hc as (? & Hs & ?).
    assert (N : is_nan (slowerSpeed (speed (controlState c))) = false).
    { apply Num.max_not_nan; [reflexivity|].
      apply Num.sub_not_nan; [exact Hs|reflexivity]. }
    repeat split; auto.
  - split; [|exact Hp]. destruct Hc as (? & Hs & ?).
    assert (N : is_nan (fasterSpeed (speed (controlState c))) = false).
    { apply Num.min_not_nan; [reflexivity|].
      apply Num.add_not_nan_r; [exact Hs|reflexivity]. }
    repeat split; auto.
  - split; [|exact Hp]. destruct Hc as (? & ? & ?).
    cbn [slider_in_range] in He.
    apply Num.in_speed_range_not_nan in He. repeat split; auto.
Qed.

Lemma mounted_keeps_progress_in_unit h :
  controls_ok (mounted h) /\ progress_ok (mounted h).
Proof.
  unfold mounted, useEffect. cbv zeta.
  assert (Hc : controls_ok
                 (set_scene
                    (Some {| ball := position_copy (getPoint trackCurve 0) newMesh;
                             curve := trackCurve; progress := 0;
                             animationFrameId := None |})
                    (browser (ThreePortfolio (freshBrowser h)))
                    (ThreePortfolio (freshBrowser h)))).
  { repeat split; try reflexivity. now left. }
  split.
  - now apply animate_controls_ok.
  - apply animate_progress_ok; [exact Hc|].
    eexists. split; reflexivity.
Qed.

End Loop.

(** C2: from the initial progress 0, whatever the user does (with the
    slider kept inside its range) and however many frames pass, the stored
    progress lies in [0,1]; the ball sits at the curve point of that
    progress, so this is the parameter at which the spline was evaluated
    for it. *)
Theorem progress_stays_in_unit (T : Three) (h : N) (events : list Event) :
  Forall slider_in_range events ->
  exists s,
    sceneRef (run events (mounted h)) = Some s /\
    in_unit (progress s) = true /\
    position (ball s) = getPoint (curve s) (progress s).
Proof.
  intros Hev.
  assert (H : progress_ok (run events (mounted h))).
  { apply (run_invariant (fun c => controls_ok c /\ progress_ok c) slider_in_range).
    - intros c e. apply step_keeps_progress_in_unit.
    - exact Hev.
    - apply mounted_keeps_progress_in_unit. }
  assert (B : on_curve (run events (mounted h))).
  { apply (run_invariant on_curve (fun _ => True)).
    - intros c e _. apply step_on_curve.
    - clear. induction events; constructor; auto.
    - apply mounted_on_curve. }
  destruct H as (s & Hs & Hp). destruct B as (s' & Hs' & Hb).
  rewrite Hs in Hs'. injection Hs' as <-. now exists s.
Qed.

Lemma progress_stays_in_unit_witness :
  exists s,
    sceneRef (@run Sample.three
                [AnimationFrame; SlideSpeed 0.005; ClickBackward; AnimationFrame;
                 AnimationFrame; ClickStartStop; AnimationFrame; ClickFaster]
                (@mounted Sample.three 0)) = Some s /\
    in_unit (progress s) = true /\
    position (ball s) = Sample.getPoint (curve s) (progress s).
Proof.
  apply (progress_stays_in_unit Sample.three 0).
  repeat constructor.
Defined.

Section Pending.

Context {T : Three}.

Lemma animate_requests c s :
  sceneRef c = Some s ->
  requests (calls (browser (animate c))) = S (requests (calls (browser c))).
Proof.
  intros Hs. rewrite (animate_scene c s Hs). cbv zeta.
  cbn [browser set_scene calls]. unfold requests.
  rewrite filter_app, length_app. cbn. lia.
Qed.

(** With one callback queued, a frame is one call of [animate], which
    queues one callback again. *)
Lemma frame_one_pending c :
  one_pending c ->
  one_pending (runFrameCallbacks c) /\
  requests (calls (browser (runFrameCallbacks c))) =
    S (requests (calls (browser c))).
Proof.
  intros (s & id & Hs & _ & _ & Hq).
  unfold runFrameCallbacks. rewrite Hq. cbv zeta. cbn [fold_left].
  set (c' := set_scene (sceneRef c) _ c).
  assert (Hs' : sceneRef c' = Some s) by exact Hs.
  split.
  - rewrite (animate_scene c' s Hs'). cbv zeta.
    eexists. eexists. split; [reflexivity|]. split; [reflexivity|].
    split; [apply N.neq_succ_0|reflexivity].
  - now rewrite (animate_requests c' s Hs').
Qed.

Lemma step_one_pending c e :
  one_pending c ->
  one_pending (step c e) /\
  requests (calls (browser (step c e))) =
    (frames [e] + requests (calls (browser c)))%nat.
Proof.
  intros H. destruct e; cbn [step]; try (split; [exact H|reflexivity]).
  apply frame_one_pending, H.
Qed.

Lemma run_one_pending events : forall c,
  one_pending c ->
  one_pending (run events c) /\
  requests (calls (browser (run events c))) =
    (frames events + requests (calls (browser c)))%nat.
Proof.
  unfold run.
  induction events as [|e events IH]; intros c H; [split; [exact H|reflexivity]|].
  cbn [fold_left]. destruct (step_one_pending c e H) as [H1 R1].
  destruct (IH _ H1) as [H2 R2]. split; [exact H2|].
  rewrite R2, R1. unfold frames. cbn [filter].
  destruct e; cbn [length]; lia.
Qed.

Lemma mounted_one_pending h :
  one_pending (mounted h) /\ requests (calls (browser (mounted h))) = 1%nat.
Proof.
  unfold mounted, useEffect. cbv zeta.
  set (c := set_scene _ _ _).
  assert (Hs : exists s, sceneRef c = Some s) by (eexists; reflexivity).
  destruct Hs as [s Hs]. split.
  - rewrite (animate_scene c s Hs). cbv zeta.
    eexists. eexists. split; [reflexivity|]. split; [reflexivity|].
    split; [apply N.neq_succ_0|reflexivity].
  - now rewrite (animate_requests c s Hs).
Qed.

Lemma cleanup_one_pending c :
  one_pending c -> frameCallbacks (browser (cleanup c)) = [].
Proof.
  intros (s & id & Hs & Hid & Hnz & Hq). unfold cleanup. rewrite Hs.
  destruct s as [b cv p a]. cbn [animationFrameId] in Hid. subst a.
  apply N.eqb_neq in Hnz. rewrite Hnz.
  cbn [browser set_scene cancelAnimationFrame frameCallbacks].
  rewrite Hq. cbn [filter]. now rewrite N.eqb_refl.
Qed.

End Pending.

(** C9: the mount and every later frame call [animate] once, and each
    call requests exactly one frame and stores its handle; so at any time
    exactly one frame callback is queued, it is the one whose handle is
    stored, and the cleanup cancels it, leaving none. *)
Theorem single_frame_callback (T : Three) (h : N) (events : list Event) :
  exists s id,
    sceneRef (run events (mounted h)) = Some s /\
    animationFrameId s = Some id /\
    frameCallbacks (browser (run events (mounted h))) = [id] /\
    requests (calls (browser (run events (mounted h)))) = S (frames events) /\
    frameCallbacks (browser (cleanup (run events (mounted h)))) = [].
Proof.
  destruct (mounted_one_pending h) as [Hm Rm].
  destruct (run_one_pending events _ Hm) as [Hr Rr].
  pose proof (cleanup_one_pending _ Hr) as Hc.
  destruct Hr as (s & id & Hs & Hid & _ & Hq).
  exists s, id. repeat split; auto. rewrite Rr, Rm. lia.
Qed.

Lemma single_frame_callback_sample :
  frameCallbacks
    (browser (@run Sample.three [AnimationFrame; ClickStartStop; AnimationFrame]
                (@mounted Sample.three 7))) = [10%N].
Proof. vm_compute. reflexivity. Qed.

Section Speeds.

Context {T : Three}.

Lemma buttonSpeeds_closed :
  forallb (fun s => in_speed_range s
                    && mem (slowerSpeed s) buttonSpeeds
                    && mem (fasterSpeed s) buttonSpeeds) buttonSpeeds = true.
Proof. vm_compute. reflexivity. Qed.

Lemma mem_In s l : mem s l = true -> In s l.
Proof.
  unfold mem. intros H. apply existsb_exists in H.
  destruct H as (x & Hx & E). apply Leibniz.eqb_spec in E. now subst.
Qed.

Lemma buttonSpeeds_spec s :
  mem s buttonSpeeds = true ->
  in_speed_range s = true /\
  mem (slowerSpeed s) buttonSpeeds = true /\
  mem (fasterSpeed s) buttonSpeeds = true.
Proof.
  intros H. apply mem_In in H.
  pose proof (proj1 (forallb_forall _ _) buttonSpeeds_closed s H) as C.
  apply andb_prop in C. destruct C as [C C3].
  apply andb_prop in C. destruct C as [C1 C2]. auto.
Qed.

Lemma step_speeds_ok c e : no_slider e -> speeds_ok c -> speeds_ok (step c e).
Proof.
  intros He [H1 H2]. destruct e; cbn [step]; try (split; assumption).
  - apply (runFrameCallbacks_invariant speeds_ok); [| |split; assumption].
    + intros c'. unfold speeds_ok.
      now destruct (animate_controls c') as (-> & _ & _ & ->).
    + auto.
  - destruct (buttonSpeeds_spec _ H2) as (_ & S & _). split; exact S.
  - destruct (buttonSpeeds_spec _ H2) as (_ & _ & F). split; exact F.
  - destruct He.
Qed.

Lemma mounted_speeds_ok h : speeds_ok (mounted h).
Proof.
  unfold mounted, useEffect, speeds_ok. cbv zeta.
  destruct (animate_controls
              (set_scene
                 (Some {| ball := position_copy (getPoint trackCurve 0) newMesh;
                          curve := trackCurve; progress := 0;
                          animationFrameId := None |})
                 (browser (ThreePortfolio (freshBrowser h)))
                 (ThreePortfolio (freshBrowser h)))) as (-> & _ & _ & ->).
  split; vm_compute; reflexivity.
Qed.

End Speeds.

(** C10: from the initial speed 0.001, presses of Slower and Faster
    (between any frames and presses of the other buttons) keep the speed,
    both the one the loop reads and the one the controls show, within
    [0.0001, 0.005]. *)
Theorem button_speed_in_range (T : Three) (h : N) (events : list Event) :
  Forall no_slider events ->
  in_speed_range (speedRef (run events (mounted h))) = true /\
  in_speed_range (speed (controlState (run events (mounted h)))) = true.
Proof.
  intros Hev.
  assert (H : speeds_ok (run events (mounted h))).
  { apply (run_invariant speeds_ok no_slider); auto.
    - intros c e. apply step_speeds_ok.
    - apply mounted_speeds_ok. }
  destruct H as [H1 H2].
  split; [apply (buttonSpeeds_spec _ H1)|apply (buttonSpeeds_spec _ H2)].
Qed.

Lemma button_speed_in_range_witness :
  in_speed_range
    (speedRef (@run Sample.three
                 [ClickSlower; AnimationFrame; ClickFaster; ClickFaster; ClickBackward]
                 (@mounted Sample.three 0))) = true /\
  in_speed_range
    (speed (controlState
              (@run Sample.three
                 [ClickSlower; AnimationFrame; ClickFaster; ClickFaster; ClickBackward]
                 (@mounted Sample.three 0)))) = true.
Proof.
  apply (button_speed_in_range Sample.three 0).
  repeat constructor.
Defined.

(** C5 (the spline is the library's, modelled above): on the track of
    either rendition the parameters 0 and 1 select the same four control
    points with weight 0, so the curve point at 0 is the curve point at 1,
    whatever cubic the curve type fits. *)
Theorem track_is_closed
  (kernel : Vector3 -> Vector3 -> Vector3 -> Vector3 -> float -> Vector3) :
  (CatmullRom.getPoint kernel trackCurve 0
     = Some (kernel (vec3 (-10) 2 0) (vec3 (-10) 2 0) (vec3 (-5) 6 5) (vec3 0 2 10) 0) /\
   CatmullRom.getPoint kernel trackCurve 1 = CatmullRom.getPoint kernel trackCurve 0) /\
  (CatmullRom.getPoint kernel First.trackCurve 0
     = Some (kernel (vec3 (-10) 0 0) (vec3 (-10) 0 0) (vec3 (-5) 4 5) (vec3 0 0 10) 0) /\
   CatmullRom.getPoint kernel First.trackCurve 1
     = CatmullRom.getPoint kernel First.trackCurve 0).
Proof. repeat split; vm_compute; reflexivity. Qed.

(** C7, as amended: from a progress p in [0,1] with p + 0.001 < 1, a
    frame of the first rendition and a frame of the second one with speed
    0.001, direction 1 and playback active store the same new progress,
    p + 0.001. *)
Theorem renditions_agree_below_wrap (T : Three)
  (c1 : First.Component) (s1 : First.SceneRef) (c2 : Component) (s2 : SceneRef) :
  First.sceneRef c1 = Some s1 ->
  sceneRef c2 = Some s2 ->
  First.progress s1 = progress s2 ->
  speedRef c2 = 0.001 -> directionRef c2 = 1 -> isPlayingRef c2 = true ->
  in_unit (progress s2) = true ->
  (progress s2 + 0.001 <? 1) = true ->
  exists s1' s2',
    First.sceneRef (First.animate c1) = Some s1' /\
    sceneRef (animate c2) = Some s2' /\
    First.progress s1' = progress s2' /\
    progress s2' = progress s2 + 0.001.
Proof.
  intros H1 H2 Hp Hspeed Hdir Hplay Hunit Hlt.
  apply andb_prop in Hunit. destruct Hunit as [H0 _].
  assert (Hn : (0 <=? progress s2 + 0.001) = true)
    by (apply Num.add_nonneg; [exact H0|reflexivity]).
  rewrite (animate_scene c2 s2 H2), Hplay. cbv zeta.
  unfold First.animate. rewrite H1. cbv zeta.
  unfold requestAnimationFrame.
  eexists. eexists. split; [reflexivity|]. split; [reflexivity|].
  cbn [First.progress progress set_animationFrameId advance].
  rewrite Hp, Hspeed, Hdir. change (0.001 * 1) with 0.001.
  unfold JS.gt, JS.lt.
  rewrite (Num.ltb_asym _ _ Hlt), (Num.nonneg_not_negative _ Hn).
  split; [|reflexivity]. now apply Num.rem_small.
Qed.

Lemma renditions_agree_below_wrap_witness :
  exists s1' s2',
    First.sceneRef (@First.animate Sample.three (firstComponentAt 0.25)) = Some s1' /\
    sceneRef (@animate Sample.three (componentAt 0.25)) = Some s2' /\
    First.progress s1' = progress s2' /\
    progress s2' = 0.25 + 0.001.
Proof.
  exact (renditions_agree_below_wrap Sample.three
           (firstComponentAt 0.25) (firstSceneAt 0.25)
           (componentAt 0.25) (sceneAt 0.25)
           eq_refl eq_refl eq_refl eq_refl eq_refl eq_refl eq_refl eq_refl).
Defined.

(** C7 as stated fails where the progress wraps.  From 0.9995 the first
    rendition keeps the overshoot and the second snaps to 0; from 0.999
    the sum is exactly 1, which the first rendition turns into 0 and the
    second keeps. *)
Lemma renditions_differ_at_wrap :
  (in_unit 0.9995 = true /\
   option_map First.progress
     (First.sceneRef (@First.animate Sample.three (firstComponentAt 0.9995)))
     = Some 0.00049999999999994493 /\
   option_map progress
     (sceneRef (@animate Sample.three (componentAt 0.9995))) = Some 0) /\
  (in_unit 0.999 = true /\
   option_map First.progress
     (First.sceneRef (@First.animate Sample.three (firstComponentAt 0.999)))
     = Some 0 /\
   option_map progress
     (sceneRef (@animate Sample.three (componentAt 0.999))) = Some 1).
Proof. repeat split; vm_compute; reflexivity. Qed.

(** Two frames from the same progress, speed, direction and playing
    state on the same curve store the same new progress, whatever else
    differs in the two components; with playback active they leave the
    same ball, with playback paused each leaves the ball it found. *)
Lemma equal_inputs_equal_update (T : Three)
  (c1 c2 : Component) (s1 s2 : SceneRef) :
  sceneRef c1 = Some s1 ->
  sceneRef c2 = Some s2 ->
  progress s1 = progress s2 ->
  curve s1 = curve s2 ->
  speedRef c1 = speedRef c2 ->
  directionRef c1 = directionRef c2 ->
  isPlayingRef c1 = isPlayingRef c2 ->
  exists s1' s2',
    sceneRef (animate c1) = Some s1' /\
    sceneRef (animate c2) = Some s2' /\
    progress s1' = progress s2' /\
    (isPlayingRef c1 = true -> ball s1' = ball s2') /\
    (isPlayingRef c1 = false -> ball s1' = ball s1 /\ ball s2' = ball s2).
Proof.
  intros H1 H2 Hp Hc Hs Hd Hplay.
  rewrite (animate_scene c1 s1 H1), (animate_scene c2 s2 H2). cbv zeta.
  eexists. eexists. split; [reflexivity|]. split; [reflexivity|].
  cbn [progress ball set_animationFrameId]. rewrite <- Hplay.
  destruct (isPlayingRef c1).
  - unfold advance. cbn [progress ball]. rewrite Hp, Hc, Hs, Hd.
    split; [reflexivity|]. split; [reflexivity|discriminate].
  - split; [exact Hp|]. split; [discriminate|]. split; reflexivity.
Qed.

Section Reachable.

Context {T : Three}.

(** In every state reached from the mount the stored curve is the track
    and the ball sits on it at the stored progress. *)
Lemma animate_on_track c :
  (exists s, sceneRef c = Some s /\ curve s = trackCurve) ->
  exists s, sceneRef (animate c) = Some s /\ curve s = trackCurve.
Proof.
  intros (s & Hs & Hc). rewrite (animate_scene c s Hs). cbv zeta.
  eexists. split; [reflexivity|]. cbn [curve set_animationFrameId].
  now destruct (isPlayingRef c).
Qed.

Lemma reached_on_track h events :
  exists s,
    sceneRef (run events (mounted h)) = Some s /\
    curve s = trackCurve /\
    position (ball s) = getPoint (curve s) (progress s).
Proof.
  assert (K : exists s, sceneRef (run events (mounted h)) = Some s /\
                        curve s = trackCurve).
  { apply (run_invariant
             (fun c => exists s, sceneRef c = Some s /\ curve s = trackCurve)
             (fun _ => True)).
    - intros c e _ H. destruct e; cbn [step]; try exact H.
      apply (runFrameCallbacks_invariant
               (fun c => exists s, sceneRef c = Some s /\ curve s = trackCurve));
        auto.
      apply animate_on_track.
    - clear. induction events; constructor; auto.
    - unfold mounted, useEffect. cbv zeta. apply animate_on_track.
      eexists. split; reflexivity. }
  assert (B : on_curve (run events (mounted h))).
  { apply (run_invariant on_curve (fun _ => True)).
    - intros c e _. apply step_on_curve.
    - clear. induction events; constructor; auto.
    - apply mounted_on_curve. }
  destruct K as (s & Hs & Hc). destruct B as (s' & Hs' & Hb).
  rewrite Hs in Hs'. injection Hs' as <-. now exists s.
Qed.

End Reachable.

(** C8, as amended: take two states reached from the mount (by any
    events) that agree on progress, speed, direction and playing state.
    A frame from each stores the same new progress and leaves the ball at
    the same position, playing or paused; with playback active it also
    leaves the same orientation; with playback paused each ball keeps the
    orientation it had. *)
Theorem frame_determined_by_inputs (T : Three)
  (h1 h2 : N) (events1 events2 : list Event) :
  option_map progress (sceneRef (run events1 (mounted h1)))
    = option_map progress (sceneRef (run events2 (mounted h2))) ->
  speedRef (run events1 (mounted h1)) = speedRef (run events2 (mounted h2)) ->
  directionRef (run events1 (mounted h1)) = directionRef (run events2 (mounted h2)) ->
  isPlayingRef (run events1 (mounted h1)) = isPlayingRef (run events2 (mounted h2)) ->
  exists s1 s2 s1' s2',
    sceneRef (run events1 (mounted h1)) = Some s1 /\
    sceneRef (run events2 (mounted h2)) = Some s2 /\
    sceneRef (animate (run events1 (mounted h1))) = Some s1' /\
    sceneRef (animate (run events2 (mounted h2))) = Some s2' /\
    progress s1' = progress s2' /\
    position (ball s1') = position (ball s2') /\
    (isPlayingRef (run events1 (mounted h1)) = true ->
     quaternion (ball s1') = quaternion (ball s2')) /\
    (isPlayingRef (run events1 (mounted h1)) = false ->
     quaternion (ball s1') = quaternion (ball s1) /\
     quaternion (ball s2') = quaternion (ball s2)).
Proof.
  intros Hp Hs Hd Hplay.
  destruct (reached_on_track h1 events1) as (s1 & H1 & K1 & B1).
  destruct (reached_on_track h2 events2) as (s2 & H2 & K2 & B2).
  rewrite H1, H2 in Hp. cbn [option_map] in Hp. injection Hp as Hp.
  assert (Hc : curve s1 = curve s2) by (now rewrite K1, K2).
  destruct (equal_inputs_equal_update T _ _ s1 s2 H1 H2 Hp Hc Hs Hd Hplay)
    as (s1' & s2' & A1 & A2 & Pr & Bplay & Bpause).
  exists s1, s2, s1', s2'.
  split; [exact H1|]. split; [exact H2|].
  split; [exact A1|]. split; [exact A2|]. split; [exact Pr|].
  destruct (isPlayingRef (run events1 (mounted h1))) eqn:E.
  - rewrite (Bplay eq_refl). split; [reflexivity|].
    split; [reflexivity|discriminate].
  - destruct (Bpause eq_refl) as [-> ->].
    split; [now rewrite B1, B2, Hc, Hp|].
    split; [discriminate|]. split; reflexivity.
Qed.

Lemma frame_determined_by_inputs_witness :
  exists s1 s2 s1' s2',
    sceneRef (@stoppedEarly Sample.three) = Some s1 /\
    sceneRef (@stoppedAfterReversal Sample.three) = Some s2 /\
    sceneRef (@animate Sample.three (@stoppedEarly Sample.three)) = Some s1' /\
    sceneRef (@animate Sample.three (@stoppedAfterReversal Sample.three)) = Some s2' /\
    progress s1' = progress s2' /\
    position (ball s1') = position (ball s2') /\
    (isPlayingRef (@stoppedEarly Sample.three) = true ->
     quaternion (ball s1') = quaternion (ball s2')) /\
    (isPlayingRef (@stoppedEarly Sample.three) = false ->
     quaternion (ball s1') = quaternion (ball s1) /\
     quaternion (ball s2') = quaternion (ball s2)).
Proof.
  apply (frame_determined_by_inputs Sample.three 0 0
           [ClickStartStop]
           [AnimationFrame; ClickBackward; AnimationFrame; ClickStartStop;
            ClickForward]);
    vm_compute; reflexivity.
Defined.

(** The two paused runs agree on the inputs of the frame, for every
    library; the ball of the first looks forward along the track, the
    ball of the second backward. *)
Lemma stopped_runs (T : Three) :
  let p := getPoint trackCurve 0.001 in
  sceneRef stoppedEarly =
    Some {| ball := {| position := p;
                       quaternion :=
                         lookAtRotation p (getPoint trackCurve ((0.001 + 0.01 + 1) %% 1)) |};
            curve := trackCurve; progress := 0.001;
            animationFrameId := Some 1%N |} /\
  sceneRef stoppedAfterReversal =
    Some {| ball := {| position := p;
                       quaternion :=
                         lookAtRotation p (getPoint trackCurve ((0.001 - 0.01 + 1) %% 1)) |};
            curve := trackCurve; progress := 0.001;
            animationFrameId := Some 3%N |} /\
  speedRef stoppedEarly = speedRef stoppedAfterReversal /\
  directionRef stoppedEarly = directionRef stoppedAfterReversal /\
  isPlayingRef stoppedEarly = false /\
  isPlayingRef stoppedAfterReversal = false.
Proof. repeat split; vm_compute; reflexivity. Qed.

(** C8 as stated fails on paused frames, in the orientation.  Whatever
    the library, the two runs reach progress 0.001, speed 0.001,
    direction 1, paused, with the ball at the same point; the frame that
    follows leaves the first ball turned toward the curve point at
    parameter 0.0109... (ahead) and the second toward the one at 0.991
    (behind).  So the two orientations are not equal for every library:
    the four inputs and the curve do not determine them. *)
Lemma paused_frame_depends_on_history :
  (forall T : Three,
     option_map progress (sceneRef stoppedEarly) = Some 0.001 /\
     option_map progress (sceneRef stoppedAfterReversal) = Some 0.001 /\
     speedRef stoppedEarly = 0.001 /\
     speedRef stoppedAfterReversal = 0.001 /\
     directionRef stoppedEarly = 1 /\
     directionRef stoppedAfterReversal = 1 /\
     isPlayingRef stoppedEarly = false /\
     isPlayingRef stoppedAfterReversal = false /\
     option_map ball (sceneRef (animate stoppedEarly))
       = Some {| position := getPoint trackCurve 0.001;
                 quaternion :=
                   lookAtRotation (getPoint trackCurve 0.001)
                     (getPoint trackCurve 0.010999999999999899) |} /\
     option_map ball (sceneRef (animate stoppedAfterReversal))
       = Some {| position := getPoint trackCurve 0.001;
                 quaternion :=
                   lookAtRotation (getPoint trackCurve 0.001)
                     (getPoint trackCurve 0.99099999999999999) |}) /\
  lookAtParameter 0.001 1 = 0.010999999999999899 /\
  lookAtParameter 0.001 (-1) = 0.99099999999999999 /\
  ~ (forall T : Three,
       option_map (fun s => quaternion (ball s)) (sceneRef (animate stoppedEarly))
       = option_map (fun s => quaternion (ball s))
           (sceneRef (animate stoppedAfterReversal))).
Proof.
  split; [intros T; repeat split; vm_compute; reflexivity|].
  split; [vm_compute; reflexivity|]. split; [vm_compute; reflexivity|].
  intros H. specialize (H Sample.three).
  apply (f_equal (fun o => match o with
                           | Some q => qw q <? 0
                           | None => false
                           end)) in H.
  vm_compute in H. discriminate H.
Qed.

(** * Further properties of the component *)

Lemma Forall_trivial {A : Type} (l : list A) : Forall (fun _ => True) l.
Proof. induction l; constructor; auto. Qed.

Section Controls.

Context {T : Three}.

Lemma step_in_sync c e : in_sync c -> in_sync (step c e).
Proof.
  intros (Hs & Hp & Hd). destruct e; cbn [step];
    try (repeat split; assumption); try (repeat split; auto; fail).
  apply (runFrameCallbacks_invariant in_sync).
  - intros c'. unfold in_sync.
    now destruct (animate_controls c') as (-> & -> & -> & ->).
  - auto.
  - repeat split; assumption.
Qed.

Lemma mounted_in_sync h : in_sync (mounted h).
Proof.
  unfold mounted, useEffect, in_sync. cbv zeta.
  match goal with |- context [animate ?c] =>
    destruct (animate_controls c) as (-> & -> & -> & ->) end.
  repeat split.
Qed.

Lemma step_direction c e :
  is_direction (directionRef c) -> is_direction (directionRef (step c e)).
Proof.
  intros H. destruct e; cbn [step]; try exact H.
  - apply (runFrameCallbacks_invariant (fun c => is_direction (directionRef c)));
      auto.
    intros c'. now destruct (animate_controls c') as (_ & _ & -> & _).
  - now right.
  - now left.
Qed.

Lemma mounted_direction h : is_direction (directionRef (mounted h)).
Proof.
  unfold mounted, useEffect. cbv zeta.
  match goal with |- context [animate ?c] =>
    destruct (animate_controls c) as (_ & _ & -> & _) end.
  now left.
Qed.

End Controls.

(** X1: the refs that the animation loop reads and the React state that
    the controls render never drift apart: after the mount and any
    events, speedRef, isPlayingRef and directionRef equal the speed,
    isPlaying and direction of controlState. *)
Theorem controls_stay_in_sync (T : Three) (h : N) (events : list Event) :
  speedRef (run events (mounted h)) = speed (controlState (run events (mounted h))) /\
  isPlayingRef (run events (mounted h)) = isPlaying (controlState (run events (mounted h))) /\
  directionRef (run events (mounted h)) = direction (controlState (run events (mounted h))).
Proof.
  apply (run_invariant in_sync (fun _ => True)).
  - intros c e _. apply step_in_sync.
  - apply Forall_trivial.
  - apply mounted_in_sync.
Qed.

(** X2: what the controls show is what the loop does: the button reads
    Stop exactly when the loop is playing, the slider shows the speed the
    loop uses, the Forward button is highlighted exactly when the loop's
    direction is 1, and exactly one of the two direction buttons is
    highlighted. *)
Theorem view_matches_loop (T : Three) (h : N) (events : list Event) :
  (playLabel (render (run events (mounted h))) = Stop <->
   isPlayingRef (run events (mounted h)) = true) /\
  sliderValue (render (run events (mounted h))) = speedRef (run events (mounted h)) /\
  forwardHighlighted (render (run events (mounted h)))
    = (directionRef (run events (mounted h)) =? 1) /\
  backwardHighlighted (render (run events (mounted h)))
    = negb (forwardHighlighted (render (run events (mounted h)))).
Proof.
  destruct (controls_stay_in_sync T h events) as (Hs & Hp & Hd).
  assert (D : is_direction (directionRef (run events (mounted h)))).
  { apply (run_invariant (fun c => is_direction (directionRef c)) (fun _ => True)).
    - intros c e _. apply step_direction.
    - apply Forall_trivial.
    - apply mounted_direction. }
  unfold render. cbn [playLabel sliderValue forwardHighlighted backwardHighlighted].
  rewrite <- Hs, <- Hp, <- Hd. repeat split.
  - destruct (isPlayingRef _); [reflexivity|discriminate].
  - intros ->. reflexivity.
  - destruct D as [-> | ->]; reflexivity.
Qed.

Section Paused.

Context {T : Three}.

Lemma animate_paused c :
  isPlayingRef c = false ->
  pose (animate c) = pose c /\ isPlayingRef (animate c) = false.
Proof.
  intros H. split; [|now destruct (animate_controls c) as (_ & -> & _)].
  unfold pose. destruct (sceneRef c) as [s|] eqn:Hs.
  - rewrite (animate_scene c s Hs), H. reflexivity.
  - unfold animate. now rewrite Hs, Hs.
Qed.

Lemma step_paused c e :
  no_start_stop e -> isPlayingRef c = false ->
  pose (step c e) = pose c /\ isPlayingRef (step c e) = false.
Proof.
  intros He H. destruct e; cbn [step]; try (split; [reflexivity|exact H]).
  - apply (runFrameCallbacks_invariant
             (fun c' => pose c' = pose c /\ isPlayingRef c' = false)); auto.
    intros c' [Hp Hq]. destruct (animate_paused c' Hq) as [Hp' Hq'].
    split; [now rewrite Hp'|exact Hq'].
  - destruct He.
Qed.

End Paused.

(** X3: while playback is paused nothing moves the ball: frames, presses
    of the direction and speed buttons and slider moves, in any order and
    number, leave the stored progress and the ball's position and
    orientation as they were, and the loop paused.  Only Start/Stop ends
    this. *)
Theorem paused_scene_is_frozen (T : Three) (c : Component) (events : list Event) :
  isPlayingRef c = false ->
  Forall no_start_stop events ->
  pose (run events c) = pose c /\ isPlayingRef (run events c) = false.
Proof.
  intros Hp Hev.
  apply (run_invariant
           (fun c' => pose c' = pose c /\ isPlayingRef c' = false)
           no_start_stop); auto.
  intros c' e He [Hc Hq]. destruct (step_paused c' e He Hq) as [Hc' Hq'].
  split; [now rewrite Hc'|exact Hq'].
Qed.

Lemma paused_scene_is_frozen_witness :
  pose (@run Sample.three
          [AnimationFrame; ClickBackward; AnimationFrame; SlideSpeed 0.003;
           ClickFaster; AnimationFrame]
          (@stoppedEarly Sample.three))
    = pose (@stoppedEarly Sample.three) /\
  isPlayingRef (@run Sample.three
          [AnimationFrame; ClickBackward; AnimationFrame; SlideSpeed 0.003;
           ClickFaster; AnimationFrame]
          (@stoppedEarly Sample.three)) = false.
Proof.
  apply (paused_scene_is_frozen Sample.three (@stoppedEarly Sample.three)).
  - reflexivity.
  - repeat constructor.
Defined.

Section Unmount.

Context {T : Three}.

Lemma step_idle c e :
  frameCallbacks (browser c) = [] ->
  frameCallbacks (browser (step c e)) = [] /\
  pose (step c e) = pose c /\
  calls (browser (step c e)) = calls (browser c).
Proof.
  intros H. destruct e; cbn [step]; try (repeat split; assumption).
  unfold runFrameCallbacks. rewrite H. cbv zeta. cbn [fold_left].
  repeat split.
Qed.

Lemma run_idle events : forall c,
  frameCallbacks (browser c) = [] ->
  frameCallbacks (browser (run events c)) = [] /\
  pose (run events c) = pose c /\
  calls (browser (run events c)) = calls (browser c).
Proof.
  unfold run. induction events as [|e events IH]; intros c H.
  - repeat split. exact H.
  - cbn [fold_left]. destruct (step_idle c e H) as (H1 & H2 & H3).
    destruct (IH _ H1) as (I1 & I2 & I3).
    repeat split; [exact I1|now rewrite I2|now rewrite I3].
Qed.

Lemma remount_one_pending c : one_pending c -> one_pending (remount c).
Proof.
  intros H. pose proof (cleanup_one_pending c H) as Hq.
  unfold remount, useEffect. cbv zeta.
  set (c' := set_scene _ _ _).
  assert (Hs : exists s, sceneRef c' = Some s) by (eexists; reflexivity).
  destruct Hs as [s Hs].
  rewrite (animate_scene c' s Hs). cbv zeta.
  eexists. eexists. split; [reflexivity|]. split; [reflexivity|].
  split; [apply N.neq_succ_0|].
  cbn [browser set_scene frameCallbacks]. subst c'.
  cbn [browser set_scene]. now rewrite Hq.
Qed.

End Unmount.

(** X4: the cleanup stops the loop for good: after it, whatever frames
    the browser runs and whatever the user presses, no frame callback is
    queued again, the stored progress and the ball stay as the cleanup
    left them, and the library is not called any more (no controls
    update, no render, no request). *)
Theorem loop_stops_after_cleanup (T : Three) (h : N) (events later : list Event) :
  frameCallbacks (browser (run later (cleanup (run events (mounted h))))) = [] /\
  pose (run later (cleanup (run events (mounted h))))
    = pose (run events (mounted h)) /\
  calls (browser (run later (cleanup (run events (mounted h)))))
    = calls (browser (cleanup (run events (mounted h)))).
Proof.
  destruct (mounted_one_pending h) as [Hm _].
  destruct (run_one_pending events _ Hm) as [Hr _].
  pose proof (cleanup_one_pending _ Hr) as Hq.
  destruct (run_idle later _ Hq) as (I1 & I2 & I3).
  repeat split; [exact I1| |exact I3].
  rewrite I2. unfold pose, cleanup.
  destruct Hr as (s & id & Hs & Hid & _ & _). rewrite Hs.
  destruct s as [b cv p a]. cbn [animationFrameId] in Hid. subst a.
  destruct (N.eqb id 0); [now rewrite Hs|reflexivity].
Qed.

(** X5: running the effect again after its cleanup (a remount) does not
    double the loop: because the cleanup cancelled the pending callback,
    exactly one callback is queued after the remount and after any later
    events, and it is the one whose handle is stored. *)
Theorem remount_keeps_single_loop (T : Three) (h : N) (events later : list Event) :
  exists s id,
    sceneRef (run later (remount (run events (mounted h)))) = Some s /\
    animationFrameId s = Some id /\
    frameCallbacks (browser (run later (remount (run events (mounted h))))) = [id].
Proof.
  destruct (mounted_one_pending h) as [Hm _].
  destruct (run_one_pending events _ Hm) as [Hr _].
  pose proof (remount_one_pending _ Hr) as Hre.
  destruct (run_one_pending later _ Hre) as [(s & id & Hs & Hid & _ & Hq) _].
  now exists s, id.
Qed.

Section FirstLoop.

Context {T : Three}.

Lemma first_animate_scene c s :
  First.sceneRef c = Some s ->
  exists s',
    First.sceneRef (First.animate c) = Some s' /\
    frameCallbacks (First.browser (First.animate c))
      = frameCallbacks (First.browser c) ++ [N.succ (lastHandle (First.browser c))] /\
    requests (calls (First.browser (First.animate c)))
      = S (requests (calls (First.browser c))).
Proof.
  intros Hs. unfold First.animate. rewrite Hs. cbv zeta.
  unfold requestAnimationFrame, call.
  cbn [frameCallbacks lastHandle calls First.sceneRef First.browser].
  eexists. split; [reflexivity|]. split; [reflexivity|].
  unfold requests. rewrite !filter_app, !length_app. cbn. lia.
Qed.

(** A frame runs [animate] once per queued callback; each run queues one
    callback again. *)
Lemma first_fold_animate l : forall c s,
  First.sceneRef c = Some s ->
  exists s',
    First.sceneRef (fold_left (fun c (_ : N) => First.animate c) l c) = Some s' /\
    length (frameCallbacks (First.browser (fold_left (fun c (_ : N) => First.animate c) l c)))
      = (length (frameCallbacks (First.browser c)) + length l)%nat /\
    requests (calls (First.browser (fold_left (fun c (_ : N) => First.animate c) l c)))
      = (requests (calls (First.browser c)) + length l)%nat.
Proof.
  induction l as [|a l IH]; intros c s Hs; cbn [fold_left].
  - exists s. cbn [length]. repeat split; auto; lia.
  - destruct (first_animate_scene c s Hs) as (s1 & H1 & Q1 & R1).
    destruct (IH _ s1 H1) as (s2 & H2 & Q2 & R2).
    exists s2. split; [exact H2|].
    rewrite Q2, R2, Q1, R1, length_app. cbn [length]. split; lia.
Qed.

Lemma first_frame c s :
  First.sceneRef c = Some s ->
  exists s',
    First.sceneRef (First.runFrameCallbacks c) = Some s' /\
    length (frameCallbacks (First.browser (First.runFrameCallbacks c)))
      = length (frameCallbacks (First.browser c)) /\
    requests (calls (First.browser (First.runFrameCallbacks c)))
      = (requests (calls (First.browser c))
         + length (frameCallbacks (First.browser c)))%nat.
Proof.
  intros Hs. unfold First.runFrameCallbacks. cbv zeta.
  destruct (first_fold_animate (frameCallbacks (First.browser c))
              {| First.sceneRef := First.sceneRef c;
                 First.browser := {| frameCallbacks := [];
                                     lastHandle := lastHandle (First.browser c);
                                     calls := calls (First.browser c) |} |}
              s Hs) as (s' & H1 & Q & R).
  exists s'. split; [exact H1|]. now rewrite Q, R.
Qed.

Lemma first_frames_succ n c :
  First.frames (S n) c = First.runFrameCallbacks (First.frames n c).
Proof. reflexivity. Qed.

Lemma first_frames n : forall c s,
  First.sceneRef c = Some s ->
  exists s',
    First.sceneRef (First.frames n c) = Some s' /\
    length (frameCallbacks (First.browser (First.frames n c)))
      = length (frameCallbacks (First.browser c)).
Proof.
  induction n as [|n IH]; intros c s Hs.
  - now exists s.
  - rewrite first_frames_succ.
    destruct (IH c s Hs) as (s1 & H1 & Q1).
    destruct (first_frame _ s1 H1) as (s2 & H2 & Q2 & _).
    exists s2. split; [exact H2|]. now rewrite Q2.
Qed.

Lemma first_useEffect b :
  exists s,
    First.sceneRef (First.useEffect b) = Some s /\
    length (frameCallbacks (First.browser (First.useEffect b)))
      = S (length (frameCallbacks b)).
Proof.
  unfold First.useEffect.
  match goal with |- context [First.animate ?c] =>
    destruct (first_animate_scene c _ eq_refl) as (s & H & Q & _) end.
  exists s. split; [exact H|].
  rewrite Q, length_app. cbn. lia.
Qed.

End FirstLoop.

(** X6: the first rendition never cancels its frame callback, so a loop
    once started runs for ever and a remount adds a second one: after the
    effect has run, been cleaned up and run again, two callbacks are
    queued after every later frame, and each frame calls [animate] (and
    requests a frame) twice. *)
Theorem first_rendition_doubles_on_remount (T : Three) (h : N) (m n : nat) :
  length (frameCallbacks
            (First.browser (First.frames m (First.useEffect (freshBrowser h))))) = 1%nat /\
  length (frameCallbacks
            (First.browser
               (First.frames n
                  (First.remount
                     (First.frames m (First.useEffect (freshBrowser h))))))) = 2%nat /\
  requests (calls (First.browser
              (First.frames (S n)
                 (First.remount
                    (First.frames m (First.useEffect (freshBrowser h)))))))
  = (2 + requests (calls (First.browser
              (First.frames n
                 (First.remount
                    (First.frames m (First.useEffect (freshBrowser h))))))))%nat.
Proof.
  destruct (first_useEffect (freshBrowser h)) as (s0 & H0 & Q0).
  destruct (first_frames m _ s0 H0) as (s1 & H1 & Q1).
  assert (L1 : length (frameCallbacks
            (First.browser (First.frames m (First.useEffect (freshBrowser h))))) = 1%nat)
    by (rewrite Q1, Q0; reflexivity).
  split; [exact L1|].
  unfold First.remount, First.cleanup.
  destruct (first_useEffect
              (First.browser (First.frames m (First.useEffect (freshBrowser h)))))
    as (s2 & H2 & Q2).
  destruct (first_frames n _ s2 H2) as (s3 & H3 & Q3).
  assert (L2 : length (frameCallbacks
            (First.browser
               (First.frames n
                  (First.useEffect
                     (First.browser
                        (First.frames m (First.useEffect (freshBrowser h)))))))) = 2%nat)
    by (rewrite Q3, Q2, L1; reflexivity).
  split; [exact L2|].
  rewrite first_frames_succ.
  destruct (first_frame _ s3 H3) as (s4 & _ & _ & R).
  rewrite R, L2. lia.
Qed.

(** More facts on binary64: order, sign of a product, clamps. *)

Module NumMore.

Lemma ltb_leb a b : (a <? b) = true -> (a <=? b) = true.
Proof.
  rewrite ltb_spec, leb_spec. unfold SFltb, SFleb.
  now destruct (SFcompare (Prim2SF a) (Prim2SF b)) as [[ | | ]|].
Qed.

Lemma leb_refl a : is_nan a = false -> (a <=? a) = true.
Proof.
  rewrite Num.is_nan_spec, leb_spec. intros H. unfold SFleb.
  now rewrite (SF.compare_refl _ H).
Qed.

Lemma binary_round_aux_opp s m e l :
  binary_round_aux prec emax (negb s) m e l
  = SFopp (binary_round_aux prec emax s m e l).
Proof.
  unfold binary_round_aux.
  destruct (shr_fexp prec emax m e l) as [mrs' e'].
  destruct (shr_fexp prec emax _ e' loc_Exact) as [mrs'' e''].
  destruct (shr_m mrs''); try reflexivity.
  now destruct (e'' <=? emax - prec)%Z.
Qed.

Lemma xorb_negb s t : xorb s (negb t) = negb (xorb s t).
Proof. now destruct s, t. Qed.

Lemma spec_mul_opp_r a b : SF64mul a (SFopp b) = SFopp (SF64mul a b).
Proof.
  destruct a as [sa|sa| |sa ma ea], b as [sb|sb| |sb mb eb]; cbn [SFopp];
    try reflexivity;
    try (cbn; now rewrite xorb_negb).
  unfold SF64mul, SFmul.
  rewrite xorb_negb. apply binary_round_aux_opp.
Qed.

Lemma mul_opp_r a b : a * - b = - (a * b).
Proof.
  apply Num.Prim2SF_inj. rewrite opp_spec, !mul_spec, opp_spec.
  apply spec_mul_opp_r.
Qed.

(** [Math.max(lo, s)] is at least [lo] and [Math.min(hi, s)] at most
    [hi], for numbers. *)
Lemma max_lower lo s :
  is_nan lo = false -> is_nan s = false -> (lo <=? JS.max lo s) = true.
Proof.
  intros Hl Hs. unfold JS.max. rewrite Hl, Hs. cbn [orb].
  destruct (lo <? s) eqn:L1; [now apply ltb_leb|].
  destruct (s <? lo) eqn:L2; [now apply leb_refl|].
  destruct (JS.is_neg_zero lo); [|now apply leb_refl].
  now apply Num.not_ltb_leb.
Qed.

Lemma min_upper hi s :
  is_nan hi = false -> is_nan s = false -> (JS.min hi s <=? hi) = true.
Proof.
  intros Hh Hs. unfold JS.min. rewrite Hh, Hs. cbn [orb].
  destruct (hi <? s) eqn:L1; [now apply leb_refl|].
  destruct (s <? hi) eqn:L2; [now apply ltb_leb|].
  destruct (JS.is_neg_zero hi); [now apply leb_refl|].
  now apply Num.not_ltb_leb.
Qed.

End NumMore.

Section Numbers.

Context {T : Three}.

Lemma step_keeps_progress_numeric c e :
  slider_is_number e ->
  controls_ok c /\ progress_ok c ->
  controls_ok (step c e) /\ progress_ok (step c e).
Proof.
  intros He H. destruct e;
    try (apply (step_keeps_progress_in_unit c); [exact I|exact H]).
  destruct H as [(? & ? & ?) Hp]. cbn [step slider_is_number] in *.
  split; [|exact Hp]. repeat split; auto.
Qed.

End Numbers.

(** X8: the wraparound makes every speed that is a number safe: from the
    mount, whatever values the slider hands over (inside its range or
    not, even infinite) as long as none is NaN, the stored progress stays
    in [0,1]. *)
Theorem progress_in_unit_for_any_number (T : Three) (h : N) (events : list Event) :
  Forall slider_is_number events ->
  exists s,
    sceneRef (run events (mounted h)) = Some s /\
    in_unit (progress s) = true.
Proof.
  intros Hev.
  apply (run_invariant (fun c => controls_ok c /\ progress_ok c) slider_is_number).
  - intros c e. apply step_keeps_progress_numeric.
  - exact Hev.
  - apply mounted_keeps_progress_in_unit.
Qed.

Lemma progress_in_unit_for_any_number_witness :
  exists s,
    sceneRef (@run Sample.three
                [SlideSpeed 7; AnimationFrame; SlideSpeed infinity; ClickBackward;
                 AnimationFrame; SlideSpeed (-3); AnimationFrame]
                (@mounted Sample.three 0)) = Some s /\
    in_unit (progress s) = true.
Proof.
  apply (progress_in_unit_for_any_number Sample.three 0).
  repeat constructor.
Defined.

(** X9: the clamps of the two speed buttons hold for every current speed
    that is a number, not only for those the buttons produce: Slower
    never leaves a speed below 0.0001 and Faster never leaves one above
    0.005, in the ref and in the React state alike. *)
Theorem speed_buttons_clamp (c : Component) :
  is_nan (speed (controlState c)) = false ->
  (0.0001 <=? speedRef (slower c)) = true /\
  (0.0001 <=? speed (controlState (slower c))) = true /\
  (speedRef (faster c) <=? 0.005) = true /\
  (speed (controlState (faster c)) <=? 0.005) = true.
Proof.
  intros H. unfold slower, faster, handleSpeedChange.
  cbn [speedRef controlState speed].
  assert (L : (0.0001 <=? JS.max 0.0001 (speed (controlState c) - 0.0001)) = true).
  { apply NumMore.max_lower; [reflexivity|].
    apply Num.sub_not_nan; [exact H|reflexivity]. }
  assert (U : (JS.min 0.005 (speed (controlState c) + 0.0001) <=? 0.005) = true).
  { apply NumMore.min_upper; [reflexivity|].
    apply Num.add_not_nan_r; [exact H|reflexivity]. }
  auto.
Qed.

Lemma speed_buttons_clamp_witness :
  (0.0001 <=? speedRef (slower (handleSpeedChange (-2) sampleComponent))) = true /\
  (0.0001 <=? speed (controlState (slower (handleSpeedChange (-2) sampleComponent)))) = true /\
  (speedRef (faster (handleSpeedChange (-2) sampleComponent)) <=? 0.005) = true /\
  (speed (controlState (faster (handleSpeedChange (-2) sampleComponent))) <=? 0.005) = true.
Proof.
  exact (speed_buttons_clamp (handleSpeedChange (-2) sampleComponent) eq_refl).
Defined.

(** X10: the two rails mirror each other about the track.  For every
    offset, [createRail] samples the track at the same 101 parameters,
    which run from 0 to 1 inside [0,1]; at each of them the rail built
    with [-offset] lies at the track point minus the shifted binormal and
    the rail built with [offset] at the track point plus the same vector. *)
Theorem rails_mirror_each_other (T : Three)
  (getTangent : CatmullRomCurve3 -> float -> Vector3)
  (crossVectors : Vector3 -> Vector3 -> Vector3)
  (normalize : Vector3 -> Vector3) (offset : float) (i : nat) :
  length (points (createRail getTangent crossVectors normalize offset)) = 101%nat /\
  (forallb in_unit railParameters = true /\
   nth_error railParameters 0 = Some 0 /\ nth_error railParameters 100 = Some 1) /\
  nth_error (points (createRail getTangent crossVectors normalize (- offset))) i
    = option_map
        (fun t => CatmullRom.subVectors
                    (getPoint trackCurve t)
                    (multiplyScalar (binormalAt getTangent crossVectors normalize t) offset))
        (nth_error railParameters i) /\
  nth_error (points (createRail getTangent crossVectors normalize offset)) i
    = option_map
        (fun t => CatmullRom.add
                    (getPoint trackCurve t)
                    (multiplyScalar (binormalAt getTangent crossVectors normalize t) offset))
        (nth_error railParameters i).
Proof.
  split; [reflexivity|].
  split; [repeat split; vm_compute; reflexivity|].
  unfold createRail. cbn [points]. rewrite !nth_error_map.
  split; [|reflexivity].
  destruct (nth_error railParameters i) as [t|]; [|reflexivity].
  cbn [option_map]. f_equal.
  unfold CatmullRom.add, CatmullRom.subVectors, multiplyScalar. cbn [x y z].
  now rewrite !NumMore.mul_opp_r, !Num.add_opp.
Qed.

(** * Magnitudes

    How large a rounded sum can be, and where the remainder by 1 lies;
    proved from the definitions of rounding on [spec_float]. *)

Module Mag.

Lemma digits2_pos_lower m : (2 ^ (Zpos (digits2_pos m) - 1) <= Zpos m)%Z.
Proof.
  induction m as [m IH|m IH|]; cbn [digits2_pos].
  - rewrite Pos2Z.inj_succ.
    replace (Z.succ (Zpos (digits2_pos m)) - 1)%Z
      with (Z.succ (Zpos (digits2_pos m) - 1)) by lia.
    rewrite Z.pow_succ_r by lia. lia.
  - rewrite Pos2Z.inj_succ.
    replace (Z.succ (Zpos (digits2_pos m)) - 1)%Z
      with (Z.succ (Zpos (digits2_pos m) - 1)) by lia.
    rewrite Z.pow_succ_r by lia. lia.
  - reflexivity.
Qed.

(** A positive integer below [2^k] has at most [k] binary digits. *)
Lemma digits2_pos_le m k :
  (0 <= k)%Z -> (Zpos m < 2 ^ k)%Z -> (Zpos (digits2_pos m) <= k)%Z.
Proof.
  intros Hk H. pose proof (digits2_pos_lower m) as L.
  assert (P : (2 ^ (Zpos (digits2_pos m) - 1) < 2 ^ k)%Z)
    by (eapply Z.le_lt_trans; eassumption).
  apply Z.pow_lt_mono_r_iff in P; lia.
Qed.

Lemma Zdigits2_nonneg m : (0 <= Zdigits2 m)%Z.
Proof. destruct m; cbn; lia. Qed.

Lemma Zdigits2_le m k :
  (0 <= m)%Z -> (0 <= k)%Z -> (m < 2 ^ k)%Z -> (Zdigits2 m <= k)%Z.
Proof.
  intros Hm Hk H. destruct m as [|p|p]; cbn [Zdigits2]; try lia.
  now apply digits2_pos_le.
Qed.

Lemma Zdigits2_upper m : (0 <= m)%Z -> (m < 2 ^ Zdigits2 m)%Z.
Proof.
  intros Hm. destruct m as [|p|p]; cbn [Zdigits2].
  - reflexivity.
  - apply SF.digits2_pos_bound.
  - lia.
Qed.

Lemma shr_1_digits mrs :
  (0 <= shr_m mrs)%Z ->
  Zdigits2 (shr_m (shr_1 mrs)) = Z.max 0 (Zdigits2 (shr_m mrs) - 1).
Proof.
  destruct mrs as [m r s]. cbn [shr_m shr_1].
  destruct m as [|p|p]; intros H; try lia.
  - reflexivity.
  - destruct p; cbn [shr_m Zdigits2 digits2_pos];
      rewrite ?Pos2Z.inj_succ; lia.
Qed.

Lemma iter_shr_1_digits p : forall mrs,
  (0 <= shr_m mrs)%Z ->
  Zdigits2 (shr_m (iter_pos shr_1 p mrs))
  = Z.max 0 (Zdigits2 (shr_m mrs) - Zpos p).
Proof.
  induction p as [p IH|p IH|]; intros mrs H; cbn [iter_pos].
  - rewrite IH by (apply SF.iter_shr_1_nonneg, SF.shr_1_nonneg, H).
    rewrite IH by (apply SF.shr_1_nonneg, H).
    rewrite shr_1_digits by exact H. lia.
  - rewrite IH by (apply SF.iter_shr_1_nonneg, H).
    rewrite IH by exact H. lia.
  - now apply shr_1_digits.
Qed.


Lemma fexp_eq z : fexp prec emax z = Z.max (z - 53) (-1074).
Proof. reflexivity. Qed.

Lemma shr_record_of_loc_m m l : shr_m (shr_record_of_loc m l) = m.
Proof. now destruct l as [|[ | | ]]. Qed.

(** The shift to the canonical exponent: where it ends and what it leaves
    of the digits. *)
Lemma shr_fexp_mag m e l :
  (0 <= m)%Z ->
  (0 <= shr_m (fst (shr_fexp prec emax m e l)))%Z /\
  snd (shr_fexp prec emax m e l) = Z.max e (fexp prec emax (Zdigits2 m + e)) /\
  (Zdigits2 (shr_m (fst (shr_fexp prec emax m e l))) + snd (shr_fexp prec emax m e l)
   <= Z.max (snd (shr_fexp prec emax m e l)) (Zdigits2 m + e))%Z.
Proof.
  intros Hm. split; [now apply SF.shr_fexp_nonneg|].
  unfold shr_fexp, shr.
  pose proof (shr_record_of_loc_m m l) as R.
  assert (Hr : (0 <= shr_m (shr_record_of_loc m l))%Z) by (now rewrite R).
  destruct (fexp prec emax (Zdigits2 m + e) - e)%Z as [|p|p] eqn:E;
    cbn [fst snd].
  - rewrite R. pose proof (Zdigits2_nonneg m). lia.
  - rewrite iter_shr_1_digits by exact Hr. rewrite R. lia.
  - rewrite R. pose proof (Zdigits2_nonneg m). lia.
Qed.

Lemma round_nearest_even_digits m l :
  (0 <= m)%Z -> (Zdigits2 (round_nearest_even m l) <= Zdigits2 m + 1)%Z.
Proof.
  intros Hm. pose proof (Zdigits2_upper m Hm) as U.
  pose proof (Zdigits2_nonneg m) as N.
  apply Zdigits2_le.
  - now apply SF.round_nearest_even_nonneg.
  - lia.
  - rewrite Z.add_1_r, Z.pow_succ_r by exact N.
    destruct l as [|[ | | ]]; cbn [round_nearest_even]; try lia.
    destruct (Z.even m); lia.
Qed.

(** Rounding raises the magnitude by at most one binary digit and does
    not overflow below [2^1023]. *)
Lemma binary_round_aux_mag s m e l k :
  (0 <= m)%Z -> (Zdigits2 m + e <= k)%Z -> (e <= 971)%Z -> (k <= 1023)%Z ->
  magnitude_below (Z.max k (-1074) + 1) (binary_round_aux prec emax s m e l) = true.
Proof.
  intros Hm Hk He Hk'. unfold binary_round_aux.
  destruct (shr_fexp_mag m e l Hm) as (N1 & E1 & D1).
  destruct (shr_fexp prec emax m e l) as [mrs' e1]. cbn [fst snd] in N1, E1, D1.
  pose proof (round_nearest_even_digits (shr_m mrs') (loc_of_shr_record mrs') N1) as D2.
  pose proof (SF.round_nearest_even_nonneg (shr_m mrs') (loc_of_shr_record mrs') N1) as N2.
  destruct (shr_fexp_mag _ e1 loc_Exact N2) as (N3 & E3 & D3).
  destruct (shr_fexp prec emax _ e1 loc_Exact) as [mrs'' e2].
  cbn [fst snd] in N3, E3, D3.
  rewrite fexp_eq in E1, E3.
  pose proof (Zdigits2_nonneg m) as P0.
  pose proof (Zdigits2_nonneg (shr_m mrs')) as P1.
  destruct (shr_m mrs'') as [|m'|m'] eqn:Em.
  - reflexivity.
  - cbn [Zdigits2] in D3.
    assert (B : (e2 <=? emax - prec)%Z = true).
    { apply Z.leb_le. change (emax - prec)%Z with 971%Z. lia. }
    rewrite B. cbn [magnitude_below]. apply Z.leb_le. lia.
  - lia.
Qed.

Lemma iter_xO_digits j : forall m,
  digits2_pos (Pos.iter xO m j) = (digits2_pos m + j)%positive.
Proof.
  induction j as [|j IH] using Pos.peano_ind; intros m.
  - cbn. lia.
  - rewrite Pos.iter_succ. cbn [digits2_pos]. rewrite IH. lia.
Qed.

(** Aligning a mantissa to a smaller exponent keeps digits + exponent. *)
Lemma shl_align_digits m e e' :
  (e' <= e)%Z ->
  (Zpos (digits2_pos (fst (shl_align m e e'))) + e' = Zpos (digits2_pos m) + e)%Z.
Proof.
  intros H. unfold shl_align.
  destruct (e' - e)%Z as [|p|p] eqn:E; cbn [fst]; try lia.
  rewrite iter_xO_digits. lia.
Qed.

Lemma binary_round_mag s m e k :
  (Zpos (digits2_pos m) + e <= k)%Z -> (k <= 1023)%Z ->
  magnitude_below (Z.max k (-1074) + 1) (binary_round prec emax s m e) = true.
Proof.
  intros Hk Hk'. unfold binary_round. rewrite fexp_eq.
  unfold shl_align.
  destruct (Z.max (Zpos (digits2_pos m) + e - 53) (-1074) - e)%Z as [|p|p] eqn:E.
  - apply binary_round_aux_mag; cbn [Zdigits2]; try lia.
  - apply binary_round_aux_mag; cbn [Zdigits2]; try lia.
  - apply binary_round_aux_mag; cbn [Zdigits2]; try lia.
    rewrite iter_xO_digits. lia.
Qed.


Lemma magnitude_below_mono k k' x :
  (k <= k')%Z -> magnitude_below k x = true -> magnitude_below k' x = true.
Proof.
  intros H. destruct x; cbn [magnitude_below]; auto.
  rewrite !Z.leb_le. lia.
Qed.

(** The aligned mantissa is below two to the magnitude. *)
Lemma shl_align_upper m e e' k :
  (e' <= e)%Z -> (Zpos (digits2_pos m) + e <= k)%Z ->
  (Zpos (fst (shl_align m e e')) < 2 ^ (k - e'))%Z.
Proof.
  intros H Hk. pose proof (shl_align_digits m e e' H) as D.
  eapply Z.lt_le_trans; [apply SF.digits2_pos_bound|].
  apply Z.pow_le_mono_r; lia.
Qed.

Lemma pos_digits_from_bound p k e :
  (Zpos p < 2 ^ (k - e))%Z -> (Zpos (digits2_pos p) + e <= k)%Z.
Proof.
  intros H. destruct (Z.le_gt_cases 0 (k - e)) as [L|G].
  - pose proof (digits2_pos_le p (k - e) L H). lia.
  - rewrite Z.pow_neg_r in H by lia. lia.
Qed.

Lemma pow2_double k : (0 <= k)%Z -> (2 ^ k + 2 ^ k = 2 ^ (k + 1))%Z.
Proof. intros H. rewrite Z.add_1_r, Z.pow_succ_r by exact H. lia. Qed.

(** The sum of two finite values below [2^(k-2)] is finite and below
    [2^k]. *)
Lemma spec_add_mag x y k :
  magnitude_below (k - 2) x = true -> magnitude_below (k - 2) y = true ->
  (-1073 <= k <= 1024)%Z ->
  magnitude_below k (SF64add x y) = true.
Proof.
  intros Hx Hy Hk.
  destruct x as [sx| | |sx mx ex], y as [sy| | |sy my ey];
    try discriminate; cbn [SF64add SFadd].
  - now destruct sx, sy.
  - apply (magnitude_below_mono (k - 2)); [lia|exact Hy].
  - apply (magnitude_below_mono (k - 2)); [lia|exact Hx].
  - cbn [magnitude_below] in Hx, Hy. apply Z.leb_le in Hx, Hy.
    set (ez := Z.min ex ey).
    pose proof (shl_align_upper mx ex ez (k - 2) (Z.le_min_l _ _) Hx) as BX.
    pose proof (shl_align_upper my ey ez (k - 2) (Z.le_min_r _ _) Hy) as BY.
    set (X := fst (shl_align mx ex ez)) in *.
    set (Y := fst (shl_align my ey ez)) in *.
    assert (Hpos : (0 <= k - 2 - ez)%Z).
    { destruct (Z.le_gt_cases 0 (k - 2 - ez)) as [L|G]; [exact L|].
      rewrite Z.pow_neg_r in BX by lia. lia. }
    pose proof (pow2_double (k - 2 - ez) Hpos) as Dbl.
    replace (k - 2 - ez + 1)%Z with (k - 1 - ez)%Z in Dbl by lia.
    assert (Hm : forall p,
               (Zpos p <= Zpos X + Zpos Y)%Z ->
               (Zpos (digits2_pos p) + ez <= k - 1)%Z).
    { intros p Hp. apply pos_digits_from_bound. lia. }
    unfold binary_normalize.
    destruct (cond_Zopp sx (Zpos X) + cond_Zopp sy (Zpos Y))%Z as [|p|p] eqn:EM.
    + reflexivity.
    + replace k with (Z.max (k - 1) (-1074) + 1)%Z at 1 by lia.
      apply binary_round_mag; [|lia].
      apply Hm. destruct sx, sy; cbn [cond_Zopp] in EM; lia.
    + replace k with (Z.max (k - 1) (-1074) + 1)%Z at 1 by lia.
      apply binary_round_mag; [|lia].
      apply Hm. destruct sx, sy; cbn [cond_Zopp] in EM; lia.
Qed.

(** A non-negative finite value plus a finite one is non-negative, or as
    small as the second operand (up to one digit). *)
Lemma spec_add_nonneg_or_small x y k :
  Spec.nonneg x = true -> Spec.finite x = true ->
  magnitude_below k y = true -> (-1074 <= k <= 1023)%Z ->
  Spec.nonneg (SF64add x y) = true \/
  magnitude_below (k + 1) (SF64add x y) = true.
Proof.
  intros Hx Hf Hy Hk.
  destruct x as [sx| | |[|] mx ex], y as [sy| | |sy my ey];
    try discriminate; cbn [SF64add SFadd].
  - left. now destruct sx, sy.
  - right. apply (magnitude_below_mono k); [lia|exact Hy].
  - now left.
  - cbn [magnitude_below] in Hy. apply Z.leb_le in Hy.
    set (ez := Z.min ex ey).
    pose proof (shl_align_upper my ey ez k (Z.le_min_r _ _) Hy) as BY.
    set (X := fst (shl_align mx ex ez)) in *.
    set (Y := fst (shl_align my ey ez)) in *.
    unfold binary_normalize. cbn [cond_Zopp].
    destruct (Zpos X + cond_Zopp sy (Zpos Y))%Z as [|p|p] eqn:EM.
    + now left.
    + left. unfold binary_round. destruct (shl_align p ez _).
      now apply SF.binary_round_aux_nonneg.
    + right. replace (k + 1)%Z with (Z.max k (-1074) + 1)%Z by lia.
      apply binary_round_mag; [|lia].
      apply pos_digits_from_bound.
      destruct sy; cbn [cond_Zopp] in EM; lia.
Qed.

(** A small value plus a non-negative value of larger magnitude is
    non-negative. *)
Lemma spec_add_dominated y mz ez' k :
  magnitude_below k y = true ->
  (k + 1 <= Zpos (digits2_pos mz) + ez')%Z ->
  Spec.nonneg (SF64add y (S754_finite false mz ez')) = true.
Proof.
  intros Hy Hz.
  destruct y as [sy| | |sy my ey]; try discriminate; cbn [SF64add SFadd].
  - reflexivity.
  - cbn [magnitude_below] in Hy. apply Z.leb_le in Hy.
    set (ez := Z.min ey ez').
    pose proof (shl_align_upper my ey ez k (Z.le_min_l _ _) Hy) as BY.
    pose proof (shl_align_digits mz ez' ez (Z.le_min_r _ _)) as DZ.
    pose proof (digits2_pos_lower (fst (shl_align mz ez' ez))) as LZ.
    set (Y := fst (shl_align my ey ez)) in *.
    set (Zm := fst (shl_align mz ez' ez)) in *.
    assert (Hle : (2 ^ (k - ez) <= 2 ^ (Zpos (digits2_pos Zm) - 1))%Z).
    { destruct (Z.le_gt_cases 0 (k - ez)) as [L|G].
      - apply Z.pow_le_mono_r; lia.
      - rewrite (Z.pow_neg_r 2 (k - ez)) by lia. apply Z.pow_nonneg. lia. }
    unfold binary_normalize. cbn [cond_Zopp].
    destruct (cond_Zopp sy (Zpos Y) + Zpos Zm)%Z as [|p|p] eqn:EM.
    + reflexivity.
    + unfold binary_round. destruct (shl_align p ez _).
      now apply SF.binary_round_aux_nonneg.
    + destruct sy; cbn [cond_Zopp] in EM; lia.
Qed.


Lemma canonical_digits m e :
  bounded prec emax m e = true -> (Zpos (digits2_pos m) <= 53)%Z.
Proof.
  unfold bounded, canonical_mantissa. intros H.
  apply andb_prop in H. destruct H as [H _]. apply Z.eqb_eq in H.
  rewrite fexp_eq in H. lia.
Qed.

(** A representable non-negative value of magnitude below 1 compares
    below 1, and conversely. *)
Lemma small_below_one x :
  valid_binary x = true -> Spec.nonneg x = true ->
  magnitude_below 0 x = true -> SFltb x Spec.one = true.
Proof.
  destruct x as [s|[|]| |[|] m e]; try discriminate; intros Hv _ Hm.
  - reflexivity.
  - cbn [valid_binary SpecFloat.valid_binary] in Hv.
    cbn [magnitude_below] in Hm. apply Z.leb_le in Hm.
    unfold bounded, canonical_mantissa in Hv.
    apply andb_prop in Hv. destruct Hv as [Hc _]. apply Z.eqb_eq in Hc.
    rewrite fexp_eq in Hc.
    unfold SFltb, Spec.one. cbn [SFcompare].
    assert (L : (e ?= -52)%Z = Lt) by (apply Z.compare_lt_iff; lia).
    now rewrite L.
Qed.

Lemma below_one_small x :
  valid_binary x = true -> Spec.nonneg x = true -> SFltb x Spec.one = true ->
  magnitude_below 0 x = true.
Proof.
  destruct x as [s|[|]| |[|] m e]; try discriminate; intros Hv _ Hlt.
  - reflexivity.
  - cbn [valid_binary SpecFloat.valid_binary] in Hv.
    pose proof (canonical_digits m e Hv) as D.
    cbn [magnitude_below]. apply Z.leb_le.
    unfold SFltb, Spec.one in Hlt. cbn [SFcompare] in Hlt.
    destruct (e ?= -52)%Z eqn:Ec; try discriminate Hlt.
    + apply Z.compare_eq in Ec. subst e.
      destruct (Pos.compare_cont Eq m 4503599627370496) eqn:Em;
        try discriminate Hlt.
      apply (proj1 (Pos.compare_lt_iff m 4503599627370496)) in Em.
      assert (B : (Zpos m < 2 ^ 52)%Z) by exact Em.
      clear Em Hlt Hv.
      pose proof (digits2_pos_le m 52 ltac:(lia) B). clear B. lia.
    + rewrite Z.compare_lt_iff in Ec. clear Hlt Hv. lia.
Qed.

Lemma at_most_one_small x :
  valid_binary x = true -> Spec.nonneg x = true -> SFleb x Spec.one = true ->
  magnitude_below 1 x = true.
Proof.
  destruct x as [s|[|]| |[|] m e]; try discriminate; intros Hv _ Hle.
  - reflexivity.
  - cbn [valid_binary SpecFloat.valid_binary] in Hv.
    pose proof (canonical_digits m e Hv) as D.
    cbn [magnitude_below]. apply Z.leb_le.
    unfold SFleb, Spec.one in Hle. cbn [SFcompare] in Hle.
    destruct (e ?= -52)%Z eqn:Ec; try discriminate Hle.
    + apply Z.compare_eq in Ec. clear Hle Hv. lia.
    + rewrite Z.compare_lt_iff in Ec. clear Hle Hv. lia.
Qed.

(** Normalising an integer below [2^52] at exponent -52 is exact and
    yields a representable value below 1. *)
Lemma binary_round_fraction q :
  (Zpos q < 2 ^ 52)%Z ->
  exists m' e',
    binary_round prec emax false q (-52) = S754_finite false m' e' /\
    bounded prec emax m' e' = true /\ (e' < -52)%Z.
Proof.
  intros H. pose proof (digits2_pos_le q 52 ltac:(lia) H) as D. clear H.
  unfold binary_round. rewrite fexp_eq.
  remember (Z.max (Zpos (digits2_pos q) + -52 - 53) (-1074)) as e0 eqn:He0.
  assert (B0 : (e0 <= -53)%Z) by lia.
  unfold shl_align.
  destruct (e0 - -52)%Z as [|j|j] eqn:Ej; try lia.
  exists (Pos.iter xO q j), e0.
  assert (Hb : bounded prec emax (Pos.iter xO q j) e0 = true).
  { unfold bounded, canonical_mantissa. apply andb_true_intro. split.
    - apply Z.eqb_eq. rewrite fexp_eq, iter_xO_digits. lia.
    - apply Z.leb_le. change (emax - prec)%Z with 971%Z. lia. }
  split; [|split; [exact Hb|lia]].
  rewrite <- (SF.binary_round_bounded false _ _ Hb).
  unfold binary_round.
  assert (Hc : fexp prec emax (Zpos (digits2_pos (Pos.iter xO q j)) + e0) = e0).
  { rewrite fexp_eq, iter_xO_digits. lia. }
  rewrite Hc. unfold shl_align. now rewrite Z.sub_diag.
Qed.

(** The remainder by 1 of a representable non-negative finite value is
    representable and lies in [[0,1)]. *)
Lemma spec_rem_one_range x :
  valid_binary x = true -> Spec.nonneg x = true -> Spec.finite x = true ->
  valid_binary (JS.SFrem x Spec.one) = true /\
  Spec.nonneg (JS.SFrem x Spec.one) = true /\
  SFltb (JS.SFrem x Spec.one) Spec.one = true.
Proof.
  destruct x as [s|[|]| |[|] m e]; try discriminate; intros Hv _ _.
  - repeat split.
  - destruct (Z.lt_ge_cases e (-52)) as [L|G].
    + assert (Hlt : SFltb (S754_finite false m e) Spec.one = true).
      { unfold SFltb, Spec.one. cbn [SFcompare].
        rewrite (proj2 (Z.compare_lt_iff e (-52)) L). reflexivity. }
      rewrite (SF.SFrem_small _ Hv eq_refl Hlt).
      repeat split; [exact Hv|exact Hlt].
    + unfold JS.SFrem, Spec.one, JS.align.
      rewrite Z.min_r by exact G.
      change (fst (shl_align 4503599627370496 (-52) (-52)))
        with 4503599627370496%positive.
      set (nx := fst (shl_align m e (-52))).
      pose proof (Z.rem_bound_pos (Zpos nx) (Zpos 4503599627370496)
                    (Pos2Z.is_nonneg nx) (Pos2Z.is_pos _)) as [R0 R1].
      change (Zpos 4503599627370496) with (2 ^ 52)%Z in R0, R1.
      change (Zpos 4503599627370496) with (2 ^ 52)%Z.
      destruct (Z.rem (Zpos nx) (2 ^ 52)) as [|q|q] eqn:Er.
      * repeat split.
      * cbn [cond_Zopp binary_normalize].
        destruct (binary_round_fraction q R1) as (m' & e' & -> & Hb & He').
        split; [exact Hb|]. split; [reflexivity|].
        unfold SFltb. cbn [SFcompare].
        rewrite (proj2 (Z.compare_lt_iff e' (-52)) He'). reflexivity.
      * exfalso. apply R0. reflexivity.
Qed.

End Mag.

Module NumMag.

Lemma nonneg_spec a : (0 <=? a) = Spec.nonneg (Prim2SF a).
Proof. now rewrite leb_spec, Num.Prim2SF_zero, SF.leb_zero_nonneg. Qed.

Lemma magnitude_finite k x : magnitude_below k x = true -> Spec.finite x = true.
Proof. now destruct x. Qed.

(** The remainder by 1 of a non-negative finite number lies in [[0,1)]. *)
Lemma rem_one_range a k :
  (0 <=? a) = true -> magnitude_below k (Prim2SF a) = true ->
  in_half_open_unit (a %% 1) = true.
Proof.
  rewrite nonneg_spec. intros Hn Hm.
  destruct (Mag.spec_rem_one_range (Prim2SF a) (Prim2SF_valid a) Hn
              (magnitude_finite _ _ Hm)) as (V & N & L).
  unfold in_half_open_unit, JS.rem.
  rewrite nonneg_spec, ltb_spec, Num.Prim2SF_one, (Prim2SF_SF2Prim _ V).
  now rewrite N, L.
Qed.

Lemma add_magnitude a b k :
  magnitude_below (k - 2) (Prim2SF a) = true ->
  magnitude_below (k - 2) (Prim2SF b) = true ->
  (-1073 <= k <= 1024)%Z ->
  magnitude_below k (Prim2SF (a + b)) = true.
Proof. rewrite add_spec. apply Mag.spec_add_mag. Qed.

Lemma in_unit_magnitude p : in_unit p = true -> magnitude_below 1 (Prim2SF p) = true.
Proof.
  unfold in_unit. intros H. apply andb_prop in H. destruct H as [H0 H1].
  rewrite nonneg_spec in H0. rewrite leb_spec, Num.Prim2SF_one in H1.
  now apply Mag.at_most_one_small; [apply Prim2SF_valid| |].
Qed.

Lemma in_half_open_unit_magnitude p :
  in_half_open_unit p = true -> magnitude_below 0 (Prim2SF p) = true.
Proof.
  unfold in_half_open_unit. intros H. apply andb_prop in H. destruct H as [H0 H1].
  rewrite nonneg_spec in H0. rewrite ltb_spec, Num.Prim2SF_one in H1.
  now apply Mag.below_one_small; [apply Prim2SF_valid| |].
Qed.

(** The update of the first rendition keeps the progress in [[0,1)]. *)
Lemma first_update_range p :
  in_half_open_unit p = true -> in_half_open_unit ((p + 0.001) %% 1) = true.
Proof.
  intros H. pose proof (in_half_open_unit_magnitude p H) as M.
  unfold in_half_open_unit in H. apply andb_prop in H. destruct H as [H0 _].
  apply (rem_one_range _ 2).
  - now apply Num.add_nonneg.
  - apply add_magnitude; [exact M|reflexivity|lia].
Qed.

(** Its look-ahead parameter lies in [[0,1)] as well. *)
Lemma first_lookAt_range p :
  in_half_open_unit p = true -> in_half_open_unit ((p + 0.01) %% 1) = true.
Proof.
  intros H. pose proof (in_half_open_unit_magnitude p H) as M.
  unfold in_half_open_unit in H. apply andb_prop in H. destruct H as [H0 _].
  apply (rem_one_range _ 2).
  - now apply Num.add_nonneg.
  - apply add_magnitude; [exact M|reflexivity|lia].
Qed.

(** The parameter of the second rendition: both directions. *)
Lemma lookAtParameter_range p d :
  in_unit p = true -> is_direction d ->
  in_half_open_unit (lookAtParameter p d) = true.
Proof.
  intros H Hd. pose proof (in_unit_magnitude p H) as M.
  unfold in_unit in H. apply andb_prop in H. destruct H as [H0 _].
  unfold lookAtParameter. destruct Hd as [-> | ->].
  - change (0.01 * 1) with 0.01.
    apply (rem_one_range _ 5).
    + apply Num.add_nonneg; [|reflexivity]. now apply Num.add_nonneg.
    + apply add_magnitude; [|reflexivity|lia].
      apply (add_magnitude _ _ 3); [exact M|reflexivity|lia].
  - change (0.01 * -1) with (-0.01).
    assert (My : magnitude_below 3 (Prim2SF (p + -0.01)) = true)
      by (apply (add_magnitude _ _ 3); [exact M|reflexivity|lia]).
    apply (rem_one_range _ 5).
    + rewrite nonneg_spec in H0.
      destruct (Mag.spec_add_nonneg_or_small (Prim2SF p) (Prim2SF (-0.01)) (-6)
                  H0 (magnitude_finite _ _ M) eq_refl ltac:(lia)) as [N|S].
      * apply Num.add_nonneg; [|reflexivity].
        now rewrite nonneg_spec, add_spec.
      * rewrite nonneg_spec, add_spec, Num.Prim2SF_one, add_spec.
        apply (Mag.spec_add_dominated _ _ _ (-6 + 1)); [exact S|].
        vm_compute. discriminate.
    + apply add_magnitude; [exact My|reflexivity|lia].
Qed.

End NumMag.

Section Ranges.

Context {T : Three}.

Lemma first_animate_range c :
  (exists s, First.sceneRef c = Some s /\
             in_half_open_unit (First.progress s) = true) ->
  exists s,
    First.sceneRef (First.animate c) = Some s /\
    in_half_open_unit (First.progress s) = true /\
    position (First.ball s) = getPoint (First.curve s) (First.progress s) /\
    quaternion (First.ball s)
      = lookAtRotation (position (First.ball s))
          (getPoint (First.curve s) ((First.progress s + 0.01) %% 1)) /\
    in_half_open_unit ((First.progress s + 0.01) %% 1) = true.
Proof.
  intros (s & Hs & Hp). unfold First.animate. rewrite Hs. cbv zeta.
  unfold requestAnimationFrame. cbn [First.sceneRef].
  eexists. split; [reflexivity|].
  cbn [First.progress First.ball First.curve].
  pose proof (NumMag.first_update_range _ Hp) as Hp'.
  split; [exact Hp'|]. split; [reflexivity|]. split; [reflexivity|].
  now apply NumMag.first_lookAt_range.
Qed.

Lemma first_fold_range l : forall c,
  (exists s, First.sceneRef c = Some s /\
             in_half_open_unit (First.progress s) = true /\
             position (First.ball s) = getPoint (First.curve s) (First.progress s) /\
             quaternion (First.ball s)
               = lookAtRotation (position (First.ball s))
                   (getPoint (First.curve s) ((First.progress s + 0.01) %% 1)) /\
             in_half_open_unit ((First.progress s + 0.01) %% 1) = true) ->
  exists s,
    First.sceneRef (fold_left (fun c (_ : N) => First.animate c) l c) = Some s /\
    in_half_open_unit (First.progress s) = true /\
    position (First.ball s) = getPoint (First.curve s) (First.progress s) /\
    quaternion (First.ball s)
      = lookAtRotation (position (First.ball s))
          (getPoint (First.curve s) ((First.progress s + 0.01) %% 1)) /\
    in_half_open_unit ((First.progress s + 0.01) %% 1) = true.
Proof.
  induction l as [|a l IH]; intros c H; cbn [fold_left]; [exact H|].
  apply IH, first_animate_range.
  destruct H as (s & Hs & Hp & _). now exists s.
Qed.

Lemma animate_looks_in_range c :
  controls_ok c -> progress_ok c ->
  (exists s t, sceneRef c = Some s /\ in_half_open_unit t = true /\
               quaternion (ball s)
                 = lookAtRotation (position (ball s)) (getPoint (curve s) t)) ->
  exists s t, sceneRef (animate c) = Some s /\ in_half_open_unit t = true /\
              quaternion (ball s)
                = lookAtRotation (position (ball s)) (getPoint (curve s) t).
Proof.
  intros (Hs & _ & Hd) (s0 & Hs0 & Hp) (s & t & Hscene & Ht & Hq).
  rewrite Hs0 in Hscene. injection Hscene as <-.
  rewrite (animate_scene c s0 Hs0). cbv zeta.
  destruct (isPlayingRef c).
  - eexists. exists (lookAtParameter (progress (advance c s0)) (directionRef c)).
    split; [reflexivity|]. split; [|reflexivity].
    apply NumMag.lookAtParameter_range; [|exact Hd].
    now apply advance_in_unit.
  - eexists. exists t. split; [reflexivity|]. split; [exact Ht|exact Hq].
Qed.

End Ranges.

(** X11: in the first rendition the stored progress never leaves
    [[0,1)]: whatever was queued in the browser and however many frames
    pass after the effect, the progress is at least 0 and below 1, the
    ball sits at the curve point of that progress and looks at the curve
    point of the parameter (progress + 0.01) mod 1, which lies in
    [[0,1)] too. *)
Theorem first_rendition_stays_in_range (T : Three) (b : Browser) (n : nat) :
  exists s,
    First.sceneRef (First.frames n (First.useEffect b)) = Some s /\
    in_half_open_unit (First.progress s) = true /\
    position (First.ball s) = getPoint (First.curve s) (First.progress s) /\
    quaternion (First.ball s)
      = lookAtRotation (position (First.ball s))
          (getPoint (First.curve s) ((First.progress s + 0.01) %% 1)) /\
    in_half_open_unit ((First.progress s + 0.01) %% 1) = true.
Proof.
  induction n as [|n IH].
  - apply first_animate_range. eexists. split; reflexivity.
  - rewrite first_frames_succ. unfold First.runFrameCallbacks. cbv zeta.
    apply first_fold_range. exact IH.
Qed.

(** X12: the loop evaluates the spline inside [0,1] only.  After the
    mount and any events whose slider values are numbers, the stored
    progress is in [0,1] and the ball sits at its curve point, and the
    ball looks at a curve point whose parameter lies in [[0,1)]. *)
Theorem spline_parameters_in_range (T : Three) (h : N) (events : list Event) :
  Forall slider_is_number events ->
  exists s t,
    sceneRef (run events (mounted h)) = Some s /\
    in_unit (progress s) = true /\
    position (ball s) = getPoint (curve s) (progress s) /\
    in_half_open_unit t = true /\
    quaternion (ball s) = lookAtRotation (position (ball s)) (getPoint (curve s) t).
Proof.
  intros Hev.
  assert (H : (controls_ok (run events (mounted h))
               /\ progress_ok (run events (mounted h)))
              /\ exists s t, sceneRef (run events (mounted h)) = Some s /\
                     in_half_open_unit t = true /\
                     quaternion (ball s)
                       = lookAtRotation (position (ball s)) (getPoint (curve s) t)).
  { apply (run_invariant
             (fun c => (controls_ok c /\ progress_ok c)
                       /\ exists s t, sceneRef c = Some s /\
                            in_half_open_unit t = true /\
                            quaternion (ball s)
                              = lookAtRotation (position (ball s))
                                  (getPoint (curve s) t))
             slider_is_number); [|exact Hev|].
    - intros c e He [Hc Hl]. split; [now apply step_keeps_progress_numeric|].
      destruct e; cbn [step]; try exact Hl.
      apply (runFrameCallbacks_invariant
               (fun c => (controls_ok c /\ progress_ok c)
                         /\ exists s t, sceneRef c = Some s /\
                              in_half_open_unit t = true /\
                              quaternion (ball s)
                                = lookAtRotation (position (ball s))
                                    (getPoint (curve s) t))); auto.
      intros c' [[Hc1 Hc2] Hl']. split.
      + split; [now apply animate_controls_ok|now apply animate_progress_ok].
      + now apply animate_looks_in_range.
    - split; [apply mounted_keeps_progress_in_unit|].
      unfold mounted, useEffect. cbv zeta.
      match goal with |- context [animate ?c] =>
        rewrite (animate_scene c _ eq_refl) end.
      cbv zeta. cbn [isPlayingRef set_scene ThreePortfolio].
      eexists. eexists. split; [reflexivity|]. split; [|reflexivity].
      apply NumMag.lookAtParameter_range; [reflexivity|now left]. }
  destruct H as [[_ (s & Hs & Hp)] (s' & t & Hs' & Ht & Hq)].
  rewrite Hs in Hs'. injection Hs' as <-.
  assert (B : on_curve (run events (mounted h))).
  { apply (run_invariant on_curve (fun _ => True)).
    - intros c e _. apply step_on_curve.
    - apply Forall_trivial.
    - apply mounted_on_curve. }
  destruct B as (s'' & Hs'' & Hb). rewrite Hs in Hs''. injection Hs'' as <-.
  now exists s, t.
Qed.

Lemma spline_parameters_in_range_witness :
  exists s t,
    sceneRef (@run Sample.three
                [AnimationFrame; ClickBackward; AnimationFrame; AnimationFrame;
                 SlideSpeed 0.004; AnimationFrame]
                (@mounted Sample.three 0)) = Some s /\
    in_unit (progress s) = true /\
    position (ball s) = Sample.getPoint (curve s) (progress s) /\
    in_half_open_unit t = true /\
    quaternion (ball s)
      = Sample.lookAtRotation (position (ball s)) (Sample.getPoint (curve s) t).
Proof.
  apply (spline_parameters_in_range Sample.three 0).
  repeat constructor.
Defined.
